(** * Skyfield: segment chains and the light-time solver

    A shallow embedding of [skyfield/ephemerislib.py]: the segment registry,
    the chain walk [_center], the common-ancestor reducer [_connect], the
    numeric primitive [_tally], and the three facades [Body], [Geometry] and
    [Solution].

    Modelling conventions.
    - Numbers.  A Python float is an IEEE 754 binary64 number: the primitive
      [float] of Rocq, whose operations round as the machine's do and which
      has infinities, a NaN and signed zeros.  The literal [1e-12] is the
      binary64 number nearest to it.  Equality of floats below is identity
      of the binary64 value ([0.0] and [-0.0] differ; there is one NaN).
    - Values.  A position or a velocity that a segment computes is a numpy
      array of three floats.  [_tally] starts from the Python float [0.0]
      and accumulates arrays onto it, so what it returns is a float when
      nothing was accumulated and an array otherwise; arithmetic between a
      float and an array broadcasts the float.
    - Time.  A Julian date is represented by its [tdb] value, so
      [JulianDate(tdb=x)] is [x] and the decorator [takes_julian_date] is the
      identity.  A date is one instant, not an array of instants.
    - Body codes are integers.  ([Topos] objects used as codes live in
      [toposlib], outside this file; an integer has no [_altaz_rotation]
      attribute, so that branch of [Solution.at] is never taken here.)
    - Exceptions are values of [exn]; a computation that needs more steps than
      the fuel it was given ends in [OutOfFuel].
    - Segment collections are Python sequences: a list is a location in a
      store (lists are mutable and shared by reference), a tuple is a value. *)

From Stdlib Require Import QArith Qcanon ZArith Floats.
From stdpp Require Import gmap list strings.

Set Warnings "-inexact-float".

Local Open Scope Z_scope.

(** ** Vectors and values *)

Record vec3 : Type := V3 { vx : float; vy : float; vz : float }.

Definition vadd (a b : vec3) : vec3 :=
  V3 (vx a + vx b) (vy a + vy b) (vz a + vz b).
Definition vsub (a b : vec3) : vec3 :=
  V3 (vx a - vx b) (vy a - vy b) (vz a - vz b).

Definition vzero : vec3 := V3 0 0 0.

(** A (position, velocity) pair of arrays, as returned by [compute]. *)
Definition pv : Type := vec3 * vec3.

Definition pv_zero : pv := (vzero, vzero).

(** A Python float or a numpy array of three floats. *)
Inductive pyval : Type :=
  | PyFloat (x : float)
  | PyArray (v : vec3).

(** The array a value broadcasts to. *)
Definition broadcast (a : pyval) : vec3 :=
  match a with
  | PyFloat x => V3 x x x
  | PyArray v => v
  end.

(** [a + b] and [a - b]: two floats give a float; as soon as one operand is
    an array the other is broadcast and the result is a new array. *)
Definition val_add (a b : pyval) : pyval :=
  match a, b with
  | PyFloat x, PyFloat y => PyFloat (x + y)
  | _, _ => PyArray (vadd (broadcast a) (broadcast b))
  end.

Definition val_sub (a b : pyval) : pyval :=
  match a, b with
  | PyFloat x, PyFloat y => PyFloat (x - y)
  | _, _ => PyArray (vsub (broadcast a) (broadcast b))
  end.

(** ** Segments

    [Segment = namedtuple('Segment', 'center target compute')]. *)

Module Segment.

Record t : Type := mk {
  center : Z;
  target : Z;
  compute : float → pv
}.

End Segment.

(** ** [_tally]

    <<
    def _tally(minus_chain, plus_chain, jd):
        position = velocity = 0.0
        for segment in minus_chain:
            p, v = segment.compute(jd)
            position -= p
            velocity -= v
        for segment in plus_chain:
            p, v = segment.compute(jd)
            position += p
            velocity += v
        return position, velocity
    >>
    [position -= p] on the float [0.0] binds [position] to the new array
    [0.0 - p]; on an array it updates that array, which no one else holds. *)

Definition tally_minus (jd : float) (acc : pyval * pyval) (segment : Segment.t)
  : pyval * pyval :=
  let '(p, v) := Segment.compute segment jd in
  (val_sub acc.1 (PyArray p), val_sub acc.2 (PyArray v)).

Definition tally_plus (jd : float) (acc : pyval * pyval) (segment : Segment.t)
  : pyval * pyval :=
  let '(p, v) := Segment.compute segment jd in
  (val_add acc.1 (PyArray p), val_add acc.2 (PyArray v)).

Definition _tally (minus_chain plus_chain : list Segment.t) (jd : float)
  : pyval * pyval :=
  foldl (tally_plus jd) (foldl (tally_minus jd) (PyFloat 0, PyFloat 0) minus_chain)
    plus_chain.

(** ** Exceptions and outcomes *)

Inductive exn : Type :=
  | ValueError (msg : string)
  | IndexError
  | TypeError
  | AttributeError.

(** The three [ValueError]s raised in this module. *)
Definition no_common_center : exn :=
  ValueError "cannot trace these bodies back to a common center"%string.
Definition cannot_observe : exn :=
  ValueError "cannot observe() unless both bodies can be referenced to the solar system barycenter"%string.
Definition failed_to_converge : exn :=
  ValueError "observe_from() light-travel time failed to converge"%string.

Inductive outcome (A : Type) : Type :=
  | Ok (a : A)
  | Raise (e : exn)
  | OutOfFuel.
Arguments Ok {A} a.
Arguments Raise {A} e.
Arguments OutOfFuel {A}.

(** ** Python sequences of segments and the store

    A list is an object in the store, named by its location; two bodies built
    from one ephemeris hold the same location.  A tuple is immutable and is
    its own value. *)

Inductive pyseq : Type :=
  | PyList (l : positive)
  | PyTuple (items : list Segment.t).

(** One call of [_tally], as observed from outside. *)
Inductive event : Type :=
  | EvTally (minus_chain plus_chain : list Segment.t) (jd : float).

Record state : Type := mkState {
  heap : gmap positive (list Segment.t);
  log : list event
}.

(** The items of a sequence.  Every location a body mentions is bound in a
    well-formed store; an unbound one reads as the empty list. *)
Definition items_of (h : gmap positive (list Segment.t)) (s : pyseq) : list Segment.t :=
  match s with
  | PyList l => default [] (h !! l)
  | PyTuple items => items
  end.

(** ** The monad of the facade methods: store, trace and exceptions *)

Definition M (A : Type) : Type := state → outcome A * state.

Global Instance M_ret : MRet M := λ A a st, (Ok a, st).
Global Instance M_bind : MBind M := λ A B k m st,
  match m st with
  | (Ok a, st') => k a st'
  | (Raise e, st') => (Raise e, st')
  | (OutOfFuel, st') => (OutOfFuel, st')
  end.

Definition raise {A} (e : exn) : M A := λ st, (Raise e, st).
Definition out_of_fuel {A} : M A := λ st, (OutOfFuel, st).

(** [iter(s)]: read the items of a sequence. *)
Definition py_items (s : pyseq) : M (list Segment.t) :=
  λ st, (Ok (items_of (heap st) s), st).

(** [a + b]: a new sequence, which no one else holds; it is returned by
    value.  Python concatenates a list only with a list and a tuple only with
    a tuple. *)
Definition py_add (a b : pyseq) : M (list Segment.t) :=
  match a, b with
  | PyList _, PyList _ | PyTuple _, PyTuple _ =>
      xs ← py_items a; ys ← py_items b; mret (xs ++ ys)
  | _, _ => raise TypeError
  end.

(** [a += b] on a local variable [a]: a list is extended in place (by any
    iterable) and the variable still names it; a tuple is rebound to a new
    tuple, and only another tuple can be added to it. *)
Definition py_iadd (a b : pyseq) : M pyseq :=
  match a, b with
  | PyList l, _ => λ st,
      let extended := items_of (heap st) a ++ items_of (heap st) b in
      (Ok a, mkState (<[l := extended]> (heap st)) (log st))
  | PyTuple xs, PyTuple ys => mret (PyTuple (xs ++ ys))
  | PyTuple _, PyList _ => raise TypeError
  end.

(** [xs[0]]. *)
Definition py_first (xs : list Segment.t) : M Segment.t :=
  match xs with
  | [] => raise IndexError
  | x :: _ => mret x
  end.

(** [_tally] as a call that is seen in the trace. *)
Definition tallyM (minus_chain plus_chain : list Segment.t) (jd : float)
  : M (pyval * pyval) :=
  λ st, (Ok (_tally minus_chain plus_chain jd),
         mkState (heap st) (log st ++ [EvTally minus_chain plus_chain jd])).

(** ** Segment registry and chain resolver

    [dict((segment.target, segment) for segment in segments)]: a later
    segment with the same target replaces an earlier one. *)

Definition segment_dict (segments : list Segment.t) : gmap Z Segment.t :=
  foldl (λ d segment, <[Segment.target segment := segment]> d) ∅ segments.

(** <<
    def _center(code, segment_dict):
        while code in segment_dict:
            segment = segment_dict[code]
            yield segment
            code = segment.center
    >>
    One unit of fuel pays for one test of the loop condition; [None] means
    the generator was still running when the fuel ran out. *)

Fixpoint _center (fuel : nat) (code : Z) (segment_dict : gmap Z Segment.t)
  : option (list Segment.t) :=
  match fuel with
  | O => None
  | S fuel' =>
      match segment_dict !! code with
      | None => Some []
      | Some segment => cons segment <$> _center fuel' (Segment.center segment) segment_dict
      end
  end.

(** [list(_center(code, segment_dict))[::-1]]: the chain, root first. *)
Definition full_chain (fuel : nat) (code : Z) (segment_dict : gmap Z Segment.t)
  : option (list Segment.t) :=
  reverse <$> _center fuel code segment_dict.

Definition full_chainM (fuel : nat) (code : Z) (segment_dict : gmap Z Segment.t)
  : M (list Segment.t) :=
  match full_chain fuel code segment_dict with
  | Some chain => mret chain
  | None => out_of_fuel
  end.

(** The parent of a body in the registry, and its [n]-th ancestor. *)
Definition parent (d : gmap Z Segment.t) (code : Z) : option Z :=
  Segment.center <$> d !! code.

Fixpoint ancestor (d : gmap Z Segment.t) (n : nat) (code : Z) : option Z :=
  match n with
  | O => Some code
  | S n' => parent d code ≫= ancestor d n'
  end.

(** A cycle of the registry can be reached from [code]. *)
Definition cycle_reachable (d : gmap Z Segment.t) (code : Z) : Prop :=
  ∃ (m n : nat) (c : Z), ancestor d m code = Some c ∧ ancestor d (S n) c = Some c.

(** The identifier at which a walk from [code] that produced [walk] stopped. *)
Definition walk_end (code : Z) (walk : list Segment.t) : Z :=
  from_option Segment.center code (last walk).

(** ** Results

    [Barycentric], [ICRS] and [Astrometric] of [positionlib] are kept as a
    tag on one record; [Distance] and [Velocity] wrap a value unchanged. *)

Inductive position_class : Type := Barycentric | ICRS | Astrometric.

Record Observer : Type := mkObserver {
  observer_position : pyval;
  observer_velocity : pyval;
  geocentric : bool
}.

Record Position : Type := mkPosition {
  cls : position_class;
  position : pyval;
  velocity : pyval;
  jd : float;
  lighttime : option float;
  observer : option Observer
}.

Definition new_position (c : position_class) (pos vel : pyval) (t : float) : Position :=
  mkPosition c pos vel t None None.

(** ** Geometry *)

Module Geometry.

Record t : Type := mk {
  center : Z;
  target : Z;
  center_chain : list Segment.t;
  target_chain : list Segment.t
}.

(** <<
    def at(self, jd):
        pos, vel = _tally(self.center_chain, self.target_chain, jd)
        cls = Barycentric if self.center == 0 else ICRS
        return cls(pos, vel, jd)
    >> *)
Definition at_ (self : t) (jd : float) : M Position :=
  '(pos, vel) ← tallyM (center_chain self) (target_chain self) jd;
  let cls := if decide (center self = 0%Z) then Barycentric else ICRS in
  mret (new_position cls pos vel jd).

End Geometry.

(** ** Solution: the light-time solver *)

Module Solution.

Record t : Type := mk {
  center : Z;
  target : Z;
  center_chain : list Segment.t;
  target_chain : list Segment.t
}.

(** [1e-12]. *)
Definition tolerance : float := 1e-12.

(** [-1e-12 < min(delta) and max(delta) < 1e-12], for one time: [delta] is
    a single number and is its own minimum and maximum.  A comparison with
    NaN is false. *)
Definition within_tolerance (delta : float) : bool :=
  (- tolerance <? delta)%float && (delta <? tolerance)%float.

Section LightTime.

(** [C_AUDAY] of [constants] and [length_of] of [functions] are not part
    of this module: the speed of light in AU per day, and the Euclidean
    length of an array of three floats.  What is proved below holds for
    every value of the two. *)
Variable C_AUDAY : float.
Variable length_of : vec3 → float.

(** [length_of(xyz)].  The length is taken of an array; the difference of
    two Python floats is a Python float, which is no array, and the call
    raises [AttributeError]. *)
Definition py_length_of (xyz : pyval) : M float :=
  match xyz with
  | PyArray v => mret (length_of v)
  | PyFloat _ => raise AttributeError
  end.

(** <<
    for i in range(10):
        lighttime = distance / C_AUDAY
        delta = lighttime - lighttime0
        if -1e-12 < min(delta) and max(delta) < 1e-12:
            break
        jd2 = JulianDate(tdb=jd_tdb - lighttime)
        tposition, tvelocity = _tally([], self.target_chain, jd2)
        distance = length_of(tposition - cposition)
        lighttime0 = lighttime
    else:
        raise ValueError('observe_from() light-travel time'
                         ' failed to converge')
    >>
    [passes] is the number of passes the [for] still has. *)
Fixpoint light_time_loop (passes : nat) (self : t) (jd_tdb : float) (cposition : pyval)
    (tposition tvelocity : pyval) (distance lighttime0 : float)
  : M (pyval * pyval * float) :=
  match passes with
  | O => raise failed_to_converge
  | S passes' =>
      let lighttime := (distance / C_AUDAY)%float in
      let delta := (lighttime - lighttime0)%float in
      if within_tolerance delta then mret (tposition, tvelocity, lighttime)
      else
        let jd2 := (jd_tdb - lighttime)%float in
        '(tposition, tvelocity) ← tallyM [] (target_chain self) jd2;
        distance ← py_length_of (val_sub tposition cposition);
        light_time_loop passes' self jd_tdb cposition tposition tvelocity
          distance lighttime
  end.

(** [Solution.at]. *)
Definition at_ (self : t) (jd : float) : M Position :=
  '(cposition, cvelocity) ← tallyM [] (center_chain self) jd;
  '(tposition, tvelocity) ← tallyM [] (target_chain self) jd;
  distance ← py_length_of (val_sub tposition cposition);
  let lighttime0 := 0%float in
  let jd_tdb := jd in
  '(tposition, tvelocity, lighttime) ←
    light_time_loop 10 self jd_tdb cposition tposition tvelocity distance lighttime0;
  let cls := if decide (center self = 0%Z) then Barycentric else Astrometric in
  mret (mkPosition cls (val_sub tposition cposition) (val_sub tvelocity cvelocity) jd
          (Some lighttime)
          (Some (mkObserver cposition cvelocity false))).

(** The light-time estimates as a sequence: [estimate self jd k] is the
    value of [lighttime] in pass [k] (counted from 0) when no earlier
    pass has stopped the loop.  The observer's position is the tally of
    the center chain at the nominal time. *)
Definition separation (self : t) (jd jd_target : float) : float :=
  length_of (broadcast (val_sub (_tally [] (target_chain self) jd_target).1
                                (_tally [] (center_chain self) jd).1)).

Fixpoint estimate (self : t) (jd : float) (k : nat) : float :=
  match k with
  | O => separation self jd jd / C_AUDAY
  | S k' => separation self jd (jd - estimate self jd k') / C_AUDAY
  end.

(** The estimate the test of pass [k] compares with: [lighttime0]. *)
Definition previous_estimate (self : t) (jd : float) (k : nat) : float :=
  match k with
  | O => 0
  | S k' => estimate self jd k'
  end.

(** The convergence test of pass [k]. *)
Definition converged (self : t) (jd : float) (k : nat) : bool :=
  within_tolerance (estimate self jd k - previous_estimate self jd k).

(** The time at which pass [k] finds the target chain evaluated. *)
Definition target_time (self : t) (jd : float) (k : nat) : float :=
  match k with
  | O => jd
  | S k' => jd - estimate self jd k'
  end.

(** The re-evaluations of the target chain made by passes [k], ...,
    [k + n - 1], and the trace of an evaluation that makes [n] of them. *)
Definition retries (self : t) (jd : float) (k n : nat) : list event :=
  map (λ i, EvTally [] (target_chain self) (jd - estimate self jd i)) (seq k n).

Definition solver_trace (self : t) (jd : float) (n : nat) : list event :=
  EvTally [] (center_chain self) jd
  :: EvTally [] (target_chain self) jd
  :: retries self jd 0 n.

(** The first pass, among [n] passes from pass [k] on, whose test holds. *)
Fixpoint first_converged (self : t) (jd : float) (k n : nat) : option nat :=
  match n with
  | O => None
  | S n' =>
      if converged self jd k then Some k
      else first_converged self jd (S k) n'
  end.

(** The position returned when pass [k] accepts. *)
Definition accepted (self : t) (jd : float) (k : nat) : Position :=
  let c := _tally [] (center_chain self) jd in
  let t := _tally [] (target_chain self) (target_time self jd k) in
  mkPosition
    (if decide (center self = 0%Z) then Barycentric else Astrometric)
    (val_sub t.1 c.1) (val_sub t.2 c.2) jd
    (Some (estimate self jd k))
    (Some (mkObserver c.1 c.2 false)).

End LightTime.

(** One of the two chains has a segment, so that a position is an array. *)
Definition has_segment (self : t) : Prop :=
  center_chain self ≠ [] ∨ target_chain self ≠ [].

(** Every segment of both chains returns the same pair at all times. *)
Definition stationary (self : t) : Prop :=
  ∀ s, s ∈ center_chain self ++ target_chain self →
       ∀ t1 t2, Segment.compute s t1 = Segment.compute s t2.

End Solution.

(** ** Body *)

Record Ephemeris : Type := mkEphemeris {
  eph_segments : pyseq;
  decode : string → Z
}.

Module Body.

Record t : Type := mk {
  ephemeris : Ephemeris;
  segments : pyseq;
  code : Z
}.

(** [Body(ephemeris, code)]: the body holds the ephemeris' own collection. *)
Definition new (ephemeris : Ephemeris) (code : Z) : t :=
  mk ephemeris (eph_segments ephemeris) code.

(** The argument of [geometry_of] and [observe]: a [Body], or a name that
    the ephemeris decodes. *)
Inductive arg : Type :=
  | ABody (body : t)
  | AName (name : string).

(** <<
    def at(self, jd):
        segments = self.segments
        segment_dict = dict((segment.target, segment) for segment in segments)
        chain = list(_center(self.code, segment_dict))[::-1]
        pos, vel = _tally((), chain, jd)
        return Barycentric(pos, vel, jd)
    >> *)
Definition at_ (fuel : nat) (self : t) (jd : float) : M Position :=
  let segments := segments self in
  items ← py_items segments;
  let segment_dict := segment_dict items in
  chain ← full_chainM fuel (code self) segment_dict;
  '(pos, vel) ← tallyM [] chain jd;
  mret (new_position Barycentric pos vel jd).

(** <<
    def observe(self, body):
        segments = self.segments
        center = self.code
        if isinstance(body, Body):
            segments += body.segments
            target = body.code
        else:
            target = self.ephemeris.decode(body)
        segment_dict = dict((segment.target, segment) for segment in segments)
        center_chain = list(_center(center, segment_dict))[::-1]
        target_chain = list(_center(target, segment_dict))[::-1]
        if not center_chain[0].center == target_chain[0].center == 0:
            raise ValueError(...)
        return Solution(center, target, center_chain, target_chain)
    >>
    The chained comparison [a == b == 0] evaluates [a] and [b], in this
    order, and then is [a == b and b == 0]. *)
Definition observe (fuel : nat) (self : t) (body : arg) : M Solution.t :=
  let segments := segments self in
  let center := code self in
  '(segments, target) ←
    match body with
    | ABody body => segments ← py_iadd segments (Body.segments body);
                    mret (segments, code body)
    | AName name => mret (segments, decode (ephemeris self) name)
    end;
  items ← py_items segments;
  let segment_dict := segment_dict items in
  center_chain ← full_chainM fuel center segment_dict;
  target_chain ← full_chainM fuel target segment_dict;
  c0 ← py_first center_chain;
  t0 ← py_first target_chain;
  if bool_decide (Segment.center c0 = Segment.center t0)
     && bool_decide (Segment.center t0 = 0%Z)
  then mret (Solution.mk center target center_chain target_chain)
  else raise cannot_observe.

End Body.

(** <<
    def _connect(body1, body2):
        every = body1.segments + body2.segments
        segment_dict = dict((segment.target, segment) for segment in every)
        segments1 = list(_center(body1.code, segment_dict))[::-1]
        segments2 = list(_center(body2.code, segment_dict))[::-1]
        if segments1[0].center != segments2[0].center:
            raise ValueError('cannot trace these bodies back to a common center')
        i = sum(1 for s1, s2 in zip(segments1, segments2) if s1.target == s2.target)
        return segments1[i:], segments2[i:]
    >> *)
Definition count_matches (segments1 segments2 : list Segment.t) : nat :=
  length (filter (λ p, Segment.target p.1 = Segment.target p.2) (zip segments1 segments2)).

Definition _connect (fuel : nat) (body1 body2 : Body.t)
  : M (list Segment.t * list Segment.t) :=
  every ← py_add (Body.segments body1) (Body.segments body2);
  let segment_dict := segment_dict every in
  segments1 ← full_chainM fuel (Body.code body1) segment_dict;
  segments2 ← full_chainM fuel (Body.code body2) segment_dict;
  s1 ← py_first segments1;
  s2 ← py_first segments2;
  if decide (Segment.center s1 ≠ Segment.center s2) then raise no_common_center
  else
    let i := count_matches segments1 segments2 in
    mret (drop i segments1, drop i segments2).

(** <<
    def geometry_of(self, body):
        if not isinstance(body, Body):
            code = self.ephemeris.decode(body)
            body = Body(self.ephemeris, code)
        center_chain, target_chain = _connect(self, body)
        return Geometry(self.code, body.code, center_chain, target_chain)
    >> *)
Definition geometry_of (fuel : nat) (self : Body.t) (body : Body.arg) : M Geometry.t :=
  let body :=
    match body with
    | Body.ABody body => body
    | Body.AName name =>
        Body.new (Body.ephemeris self) (decode (Body.ephemeris self) name)
    end in
  '(center_chain, target_chain) ← _connect fuel self body;
  mret (Geometry.mk (Body.code self) (Body.code body) center_chain target_chain).

(** ** Notions used to state the properties *)

(** The codes the walk looks up successfully within [fuel] tests. *)
Fixpoint trail (fuel : nat) (code : Z) (d : gmap Z Segment.t) : list Z :=
  match fuel with
  | O => []
  | S fuel' =>
      match d !! code with
      | None => []
      | Some segment => code :: trail fuel' (Segment.center segment) d
      end
  end.

(** Every key of the registry is the target of its segment. *)
Definition keyed_by_target (d : gmap Z Segment.t) : Prop :=
  ∀ k s, d !! k = Some s → Segment.target s = k.

(** The identifier a root-first chain starts from. *)
Definition chain_root (chain : list Segment.t) : option Z :=
  Segment.center <$> head chain.

Definition same_root (chainA chainB : list Segment.t) : Prop :=
  ∃ r, chain_root chainA = Some r ∧ chain_root chainB = Some r.

(** Positions where the targets of two chains agree form a common prefix. *)
Definition agree_on_prefix (chain1 chain2 : list Segment.t) : Prop :=
  ∀ j s1 s2, chain1 !! j = Some s1 → chain2 !! j = Some s2 →
             Segment.target s1 = Segment.target s2 →
             take (S j) chain1 = take (S j) chain2.

(** The first statements of [observe], up to the choice of [target]: the
    sequence the registry is built from, and the target's code. *)
Definition observe_operands (self : Body.t) (body : Body.arg) : M (pyseq * Z) :=
  match body with
  | Body.ABody body =>
      segments ← py_iadd (Body.segments self) (Body.segments body);
      mret (segments, Body.code body)
  | Body.AName name =>
      mret (Body.segments self, decode (Body.ephemeris self) name)
  end.

(** The rest of [observe]: the two chains, the test of their roots, and the
    [Solution]. *)
Definition observe_chains (fuel : nat) (self : Body.t) (segments : pyseq) (target : Z)
  : M Solution.t :=
  items ← py_items segments;
  let d := segment_dict items in
  center_chain ← full_chainM fuel (Body.code self) d;
  target_chain ← full_chainM fuel target d;
  c0 ← py_first center_chain;
  t0 ← py_first target_chain;
  if bool_decide (Segment.center c0 = Segment.center t0)
     && bool_decide (Segment.center t0 = 0%Z)
  then mret (Solution.mk (Body.code self) target center_chain target_chain)
  else raise cannot_observe.

(** A computation that leaves every list of the store as it was. *)
Definition preserves_heap {A} (m : M A) : Prop :=
  ∀ st, heap (m st).2 = heap st.

(** A computation that is still running whatever fuel it is given. *)
Definition never_finishes {A} (m : nat → M A) (st : state) : Prop :=
  ∀ fuel, m fuel st = (OutOfFuel, st).

(** A value that is an array. *)
Definition is_array (a : pyval) : Prop :=
  match a with
  | PyArray _ => True
  | PyFloat _ => False
  end.

(** ** Exact sums

    The rational number a finite float stands for, and the sum that the loop
    of [_tally] accumulates for one coordinate when every addition and
    subtraction is exact instead of rounded.  They state what pruning and
    concatenation preserve.  (An infinity or a NaN stands for no rational;
    [value] gives it 0.) *)

Module Exact.

Definition value (x : float) : Qc :=
  match Prim2SF x with
  | S754_finite s m e => Q2Qc (inject_Z (cond_Zopp s (Z.pos m)) * Qpower 2 e)
  | _ => Q2Qc 0
  end.

(** The six coordinates of a position and velocity. *)
Inductive coordinate : Type := Px | Py | Pz | Vx | Vy | Vz.

Definition pick (c : coordinate) (r : pv) : float :=
  match c with
  | Px => vx r.1 | Py => vy r.1 | Pz => vz r.1
  | Vx => vx r.2 | Vy => vy r.2 | Vz => vz r.2
  end.

Definition tally (c : coordinate) (minus_chain plus_chain : list Segment.t)
    (jd : float) : Qc :=
  foldl (λ acc s, (acc + value (pick c (Segment.compute s jd)))%Qc)
    (foldl (λ acc s, (acc - value (pick c (Segment.compute s jd)))%Qc)
       (Q2Qc 0) minus_chain)
    plus_chain.

(** A coordinate of what [_tally] returns, as a rational. *)
Definition result (c : coordinate) (r : pyval * pyval) : Qc :=
  value (pick c (broadcast r.1, broadcast r.2)).

(** [_tally] has left no rounding error in a coordinate: the float it
    returns is finite and stands for the exact sum. *)
Definition is_exact (c : coordinate) (minus_chain plus_chain : list Segment.t)
    (jd : float) : Prop :=
  is_finite (pick c (broadcast (_tally minus_chain plus_chain jd).1,
                     broadcast (_tally minus_chain plus_chain jd).2)) = true
  ∧ result c (_tally minus_chain plus_chain jd) = tally c minus_chain plus_chain jd.

End Exact.

(** ** Concrete inputs *)

Module Example.

(** The scenario of the specification: 399 hangs from 3, 3 from the root. *)
Definition S1 : Segment.t := Segment.mk 0 3 (λ t, (V3 t 0 0, V3 1 0 0)).
Definition S2 : Segment.t := Segment.mk 3 399 (λ t, (V3 0 1 0, V3 0 0 0)).

(** An ephemeris whose segments are the Python list at location 1, and
    which decodes every name to the code 999, which has no segment. *)
Definition de : Ephemeris := mkEphemeris (PyList 1) (λ _, 999%Z).
Definition store : state := mkState {[1%positive := [S1; S2]]} [].

Definition earth : Body.t := Body.new de 399.
Definition emb : Body.t := Body.new de 3.
Definition barycenter : Body.t := Body.new de 0.
Definition stranger : Body.t := Body.new de 12345.

(** The same segments held in a tuple. *)
Definition de_tuple : Ephemeris := mkEphemeris (PyTuple [S1; S2]) (λ _, 999%Z).
Definition earth_tuple : Body.t := Body.new de_tuple 399.
Definition emb_tuple : Body.t := Body.new de_tuple 3.

(** A malformed set: 1 hangs from 2 and 2 from 1. *)
Definition L1 : Segment.t := Segment.mk 2 1 (λ _, pv_zero).
Definition L2 : Segment.t := Segment.mk 1 2 (λ _, pv_zero).
Definition looping : Body.t := Body.mk de (PyTuple [L1; L2]) 1.

(** A set whose only root is 7. *)
Definition S7 : Segment.t := Segment.mk 7 3 (λ _, (V3 1 0 0, vzero)).
Definition adrift : Body.t := Body.mk de (PyTuple [S7]) 3.

(** The speed of light in AU per day: 299792458 m/s times 86400 s, divided
    by the 149597870700 m of the astronomical unit. *)
Definition C_AUDAY : float := 173.14463267424034.

(** The Euclidean length of an array of three floats: the square root of
    the sum of the squares, each operation rounded. *)
Definition euclidean (v : vec3) : float :=
  sqrt (vx v * vx v + vy v * vy v + vz v * vz v).

(** An observer at the root. *)
Definition origin : Segment.t := Segment.mk 0 1 (λ _, pv_zero).

(** A target that is 3 AU away during the hundredth of a day before time 0
    and 1 AU away at every other time.  Seen from the origin at time 0 its
    light time is 1/C, then 3/C, then 1/C again, and so on: the estimates
    never settle. *)
Definition flicker : Segment.t :=
  Segment.mk 0 2 (λ t,
    if (t <? -0.01)%float then (V3 1 0 0, vzero)
    else if (t <? 0)%float then (V3 3 0 0, vzero)
    else (V3 1 0 0, vzero)).
Definition oscillating : Solution.t := Solution.mk 1 2 [origin] [flicker].

(** A target at rest 1 AU away, one at rest a hundred-billionth of an AU
    (about 1.5 m) away, one at rest 1e200 AU away, whose squared distance
    is beyond the largest float, and one at the distance whose light time
    in float64 is the float [1e-12] itself. *)
Definition far : Segment.t := Segment.mk 0 2 (λ _, (V3 1 0 0, vzero)).
Definition near : Segment.t := Segment.mk 0 2 (λ _, (V3 1e-11 0 0, vzero)).
Definition remote : Segment.t := Segment.mk 0 2 (λ _, (V3 1e200 0 0, vzero)).
Definition brink : Segment.t :=
  Segment.mk 0 2 (λ _, (V3 1.7314463267424034e-10 0 0, vzero)).
Definition far_pair : Solution.t := Solution.mk 1 2 [origin] [far].
Definition near_pair : Solution.t := Solution.mk 1 2 [origin] [near].
Definition remote_pair : Solution.t := Solution.mk 1 2 [origin] [remote].
Definition brink_pair : Solution.t := Solution.mk 1 2 [origin] [brink].

(** A solution built by hand with two empty chains. *)
Definition empty_pair : Solution.t := Solution.mk 1 2 [] [].

Definition idle : state := mkState ∅ [].

End Example.

(** ** Notions used to state the further properties *)

(** Each segment of a root-first chain starts where the one before it ends. *)
Definition linked (chain : list Segment.t) : Prop :=
  ∀ i s s', chain !! i = Some s → chain !! S i = Some s' →
            Segment.center s' = Segment.target s.

(** The segments of a collection that have a given target, in order. *)
Definition with_target (k : Z) (segments : list Segment.t) : list Segment.t :=
  filter (λ s, Segment.target s = k) segments.

(** ** Further concrete inputs *)

Module Example2.

(** The scenario of the specification with a second body hanging from 3. *)
Definition S3 : Segment.t := Segment.mk 3 301 (λ t, (V3 0 0 1, V3 0 0 0)).
Definition trio : list Segment.t := [Example.S1; Example.S2; S3].
Definition de : Ephemeris := mkEphemeris (PyTuple trio) (λ _, 301%Z).
Definition earth : Body.t := Body.new de 399.
Definition moon : Body.t := Body.new de 301.
Definition barycenter : Body.t := Body.new de 0.

(** A body of another system: 8 hangs from 7. *)
Definition S8 : Segment.t := Segment.mk 7 8 (λ t, (V3 1 0 0, V3 0 0 0)).
Definition adrift : Body.t := Body.mk de (PyTuple [S8]) 8.

(** Two bodies at rest, 1 AU and 3 AU from the root along one axis, in an
    ephemeris whose segments are the Python list at location 2. *)
Definition P1 : Segment.t := Segment.mk 0 1 (λ _, (V3 1 0 0, vzero)).
Definition P2 : Segment.t := Segment.mk 0 2 (λ _, (V3 3 0 0, vzero)).
Definition de_rest : Ephemeris := mkEphemeris (PyList 2) (λ _, 2%Z).
Definition store : state := mkState {[2%positive := [P1; P2]]} [].
Definition here : Body.t := Body.new de_rest 1.
Definition there : Body.t := Body.new de_rest 2.

(** An observer at the root and the flickering target, in one ephemeris. *)
Definition de_flicker : Ephemeris :=
  mkEphemeris (PyTuple [Example.origin; Example.flicker]) (λ _, 2%Z).
Definition watcher : Body.t := Body.new de_flicker 1.

End Example2.

(** ** Inputs on which rounding shows *)

Module Example3.

(** Body 3 is 0.2 AU from the root; bodies 399 and 301 hang from it, 0.1 AU
    and 0.3 AU away, all along one axis and at rest.  None of the three
    distances is a binary64 number; each is the nearest one. *)
Definition D2 : Segment.t := Segment.mk 0 3 (λ _, (V3 0.2 0 0, vzero)).
Definition D1 : Segment.t := Segment.mk 3 399 (λ _, (V3 0.1 0 0, vzero)).
Definition D3 : Segment.t := Segment.mk 3 301 (λ _, (V3 0.3 0 0, vzero)).
Definition de : Ephemeris := mkEphemeris (PyTuple [D2; D1; D3]) (λ _, 301%Z).
Definition earth : Body.t := Body.new de 399.
Definition moon : Body.t := Body.new de 301.

End Example3.

(** * Proofs *)

(** ** Floats *)

Section Floats.

Lemma float_sub_0_r (x : float) : (x - 0)%float = x.
Proof.
  apply Prim2SF_inj. rewrite sub_spec.
  change (Prim2SF 0) with (S754_zero false).
  by destruct (Prim2SF x) as [[]|[]| |[] m e].
Qed.

Lemma is_finite_spec (x : float) :
  is_finite x = true →
  match Prim2SF x with
  | S754_zero _ | S754_finite _ _ _ => True
  | _ => False
  end.
Proof.
  unfold is_finite, is_nan, is_infinity. rewrite !FloatAxioms.eqb_spec, abs_spec.
  change (Prim2SF infinity) with (S754_infinity false).
  by destruct (Prim2SF x) as [[]|[]| |[] m e].
Qed.

Lemma float_sub_diag (x : float) : is_finite x = true → (x - x)%float = 0%float.
Proof.
  intros H%is_finite_spec. apply Prim2SF_inj. rewrite sub_spec.
  change (Prim2SF 0) with (S754_zero false).
  destruct (Prim2SF x) as [[]|[]| |s m e]; try done.
  unfold SF64sub, SFsub. cbv zeta. by rewrite Z.sub_diag.
Qed.

Lemma within_tolerance_zero : Solution.within_tolerance 0 = true.
Proof. reflexivity. Qed.

Lemma within_tolerance_first (x : float) :
  (x <? Solution.tolerance)%float = false →
  Solution.within_tolerance (x - 0) = false.
Proof.
  intros H. unfold Solution.within_tolerance.
  by rewrite float_sub_0_r, H, andb_false_r.
Qed.

End Floats.

(** ** The loop of [_tally] *)

Section Tally.

Lemma tally_minus_spec jd acc s :
  tally_minus jd acc s
  = (val_sub acc.1 (PyArray (Segment.compute s jd).1),
     val_sub acc.2 (PyArray (Segment.compute s jd).2)).
Proof. unfold tally_minus. by destruct (Segment.compute s jd). Qed.

Lemma tally_plus_spec jd acc s :
  tally_plus jd acc s
  = (val_add acc.1 (PyArray (Segment.compute s jd).1),
     val_add acc.2 (PyArray (Segment.compute s jd).2)).
Proof. unfold tally_plus. by destruct (Segment.compute s jd). Qed.

Lemma _tally_app_plus minus_chain chainA chainB jd :
  _tally minus_chain (chainA ++ chainB) jd
  = foldl (tally_plus jd) (_tally minus_chain chainA jd) chainB.
Proof. unfold _tally. by rewrite foldl_app. Qed.

Lemma _tally_app_minus chainA chainB jd :
  _tally (chainA ++ chainB) [] jd
  = foldl (tally_minus jd) (_tally chainA [] jd) chainB.
Proof. unfold _tally. simpl. by rewrite foldl_app. Qed.

Lemma val_add_is_array a b : is_array a ∨ is_array b → is_array (val_add a b).
Proof. by destruct a, b; intros [|]. Qed.

Lemma val_sub_is_array a b : is_array a ∨ is_array b → is_array (val_sub a b).
Proof. by destruct a, b; intros [|]. Qed.

Lemma foldl_tally_plus_is_array jd chain acc :
  is_array acc.1 ∧ is_array acc.2 →
  is_array (foldl (tally_plus jd) acc chain).1
  ∧ is_array (foldl (tally_plus jd) acc chain).2.
Proof.
  revert acc. induction chain as [|s chain IH]; intros acc Hacc; [done|].
  simpl. apply IH. rewrite tally_plus_spec. simpl.
  split; apply val_add_is_array; by right.
Qed.

(** A tally over a chain that has a segment is a pair of arrays. *)
Lemma _tally_is_array chain jd :
  chain ≠ [] →
  is_array (_tally [] chain jd).1 ∧ is_array (_tally [] chain jd).2.
Proof.
  destruct chain as [|s chain]; [done|]. intros _. unfold _tally. simpl.
  apply foldl_tally_plus_is_array. by rewrite tally_plus_spec.
Qed.

Lemma foldl_tally_plus_stationary chain t1 t2 acc :
  (∀ s, s ∈ chain → ∀ t1 t2, Segment.compute s t1 = Segment.compute s t2) →
  foldl (tally_plus t1) acc chain = foldl (tally_plus t2) acc chain.
Proof.
  revert acc. induction chain as [|s chain IH]; intros acc H; [done|]. simpl.
  rewrite !tally_plus_spec, (H s (list_elem_of_here _ _) t1 t2).
  apply IH. intros s' Hs'. apply H. by apply list_elem_of_further.
Qed.

Lemma tally_stationary chain t1 t2 :
  (∀ s, s ∈ chain → ∀ t1 t2, Segment.compute s t1 = Segment.compute s t2) →
  _tally [] chain t1 = _tally [] chain t2.
Proof. intros H. unfold _tally. simpl. by apply foldl_tally_plus_stationary. Qed.

End Tally.

(** ** Exact sums *)

Section ExactSums.

Context (coord : Exact.coordinate) (jd : float).

Local Abbreviation term :=
  (λ s : Segment.t, Exact.value (Exact.pick coord (Segment.compute s jd))).

(** The exact sum of a chain's contributions. *)
Local Abbreviation total :=
  (λ chain : list Segment.t, foldr (λ s acc, (term s + acc)%Qc) (Q2Qc 0) chain).

Lemma total_app c1 c2 : total (c1 ++ c2) = (total c1 + total c2)%Qc.
Proof.
  induction c1 as [|s c1 IH]; simpl.
  - ring.
  - rewrite IH. ring.
Qed.

Lemma foldl_exact_plus chain acc :
  foldl (λ acc s, (acc + term s)%Qc) acc chain = (acc + total chain)%Qc.
Proof.
  revert acc. induction chain as [|s chain IH]; intros acc; simpl.
  - ring.
  - rewrite IH. ring.
Qed.

Lemma foldl_exact_minus chain acc :
  foldl (λ acc s, (acc - term s)%Qc) acc chain = (acc - total chain)%Qc.
Proof.
  revert acc. induction chain as [|s chain IH]; intros acc; simpl.
  - ring.
  - rewrite IH. ring.
Qed.

Lemma exact_tally_total minus_chain plus_chain :
  Exact.tally coord minus_chain plus_chain jd
  = (total plus_chain - total minus_chain)%Qc.
Proof.
  unfold Exact.tally. rewrite foldl_exact_plus, foldl_exact_minus. ring.
Qed.

(** Segments common to both chains cancel exactly. *)
Lemma exact_tally_prefix shared restA restB :
  Exact.tally coord restA restB jd
  = (Exact.tally coord [] (shared ++ restB) jd
     - Exact.tally coord [] (shared ++ restA) jd)%Qc.
Proof. rewrite !exact_tally_total, !total_app. simpl. ring. Qed.

Lemma exact_tally_app chainA chainB :
  Exact.tally coord [] (chainA ++ chainB) jd
  = (Exact.tally coord [] chainA jd + Exact.tally coord [] chainB jd)%Qc
  ∧ Exact.tally coord (chainA ++ chainB) [] jd
    = (Exact.tally coord chainA [] jd + Exact.tally coord chainB [] jd)%Qc.
Proof. rewrite !exact_tally_total, !total_app. simpl. split; ring. Qed.

(** Where [_tally] has left no rounding error, its results inherit what
    holds of the exact sums. *)
Lemma is_exact_prefix shared restA restB :
  Exact.is_exact coord restA restB jd →
  Exact.is_exact coord [] (shared ++ restB) jd →
  Exact.is_exact coord [] (shared ++ restA) jd →
  Exact.result coord (_tally restA restB jd)
  = (Exact.result coord (_tally [] (shared ++ restB) jd)
     - Exact.result coord (_tally [] (shared ++ restA) jd))%Qc.
Proof.
  intros [_ ->] [_ ->] [_ ->]. apply exact_tally_prefix.
Qed.

Lemma is_exact_app chainA chainB :
  (Exact.is_exact coord [] (chainA ++ chainB) jd →
   Exact.is_exact coord [] chainA jd → Exact.is_exact coord [] chainB jd →
   Exact.result coord (_tally [] (chainA ++ chainB) jd)
   = (Exact.result coord (_tally [] chainA jd)
      + Exact.result coord (_tally [] chainB jd))%Qc)
  ∧ (Exact.is_exact coord (chainA ++ chainB) [] jd →
     Exact.is_exact coord chainA [] jd → Exact.is_exact coord chainB [] jd →
     Exact.result coord (_tally (chainA ++ chainB) [] jd)
     = (Exact.result coord (_tally chainA [] jd)
        + Exact.result coord (_tally chainB [] jd))%Qc).
Proof.
  split; intros [_ ->] [_ ->] [_ ->]; apply exact_tally_app.
Qed.

End ExactSums.

(** ** The chain walk *)

Section Walk.

Context (d : gmap Z Segment.t).

Lemma _center_mono fuel fuel' code walk :
  _center fuel code d = Some walk → (fuel ≤ fuel')%nat →
  _center fuel' code d = Some walk.
Proof.
  revert fuel' code walk.
  induction fuel as [|fuel IH]; intros fuel' code walk H Hle; [done|].
  destruct fuel' as [|fuel']; [lia|]. simpl in *.
  destruct (d !! code) as [s|]; [|done].
  destruct (_center fuel (Segment.center s) d) as [w|] eqn:E; [|done].
  rewrite (IH fuel' _ w); [done|done|lia].
Qed.

Lemma _center_det fuel1 fuel2 code walk1 walk2 :
  _center fuel1 code d = Some walk1 → _center fuel2 code d = Some walk2 →
  walk1 = walk2.
Proof.
  intros H1 H2.
  apply (_center_mono _ (fuel1 `max` fuel2)) in H1; [|lia].
  apply (_center_mono _ (fuel1 `max` fuel2)) in H2; [|lia]. congruence.
Qed.

Lemma _center_cons fuel code s walk :
  _center fuel code d = Some (s :: walk) →
  d !! code = Some s ∧ ∃ fuel', fuel = S fuel' ∧ _center fuel' (Segment.center s) d = Some walk.
Proof.
  destruct fuel as [|fuel]; [done|]. simpl.
  destruct (d !! code) as [s'|]; [|done].
  destruct (_center fuel (Segment.center s') d) as [w|] eqn:E; [|done].
  intros [= -> ->]. eauto.
Qed.

Lemma _center_nil fuel code :
  _center fuel code d = Some [] → d !! code = None.
Proof.
  destruct fuel as [|fuel]; [done|]. simpl.
  destruct (d !! code) as [s'|]; [|done].
  by destruct (_center fuel (Segment.center s') d).
Qed.

Lemma walk_end_cons code s walk :
  walk_end code (s :: walk) = walk_end (Segment.center s) walk.
Proof.
  unfold walk_end. destruct walk as [|s' walk]; [done|].
  rewrite last_cons_cons.
  by destruct (last_is_Some (s' :: walk)) as [_ [x ->]].
Qed.

(** A walk that has produced [walk1] goes on from where [walk1] stopped. *)
Lemma _center_app fuel code walk1 walk2 :
  _center fuel code d = Some (walk1 ++ walk2) →
  _center fuel (walk_end code walk1) d = Some walk2.
Proof.
  revert fuel code. induction walk1 as [|s walk1 IH]; intros fuel code H; [done|].
  apply _center_cons in H as (Hs & fuel' & -> & H).
  apply IH in H. apply (_center_mono fuel'); [|lia].
  by rewrite walk_end_cons.
Qed.

Lemma _center_end fuel code walk :
  _center fuel code d = Some walk → d !! walk_end code walk = None.
Proof.
  intros H. rewrite <-(app_nil_r walk) in H.
  by apply _center_app, _center_nil in H.
Qed.

Lemma _center_elem fuel code walk s :
  keyed_by_target d → _center fuel code d = Some walk → s ∈ walk →
  d !! Segment.target s = Some s.
Proof.
  intros Hk. revert fuel code. induction walk as [|s' walk IH]; intros fuel code H Hin.
  - by apply elem_of_nil in Hin.
  - apply _center_cons in H as (Hs & fuel' & -> & H).
    apply elem_of_cons in Hin as [->|Hin]; [|by eapply IH].
    by rewrite (Hk _ _ Hs).
Qed.

(** The walk from the target of one of its segments is the rest of the walk. *)
Lemma _center_suffix fuel code walk1 s walk2 :
  keyed_by_target d → _center fuel code d = Some (walk1 ++ s :: walk2) →
  _center fuel (Segment.target s) d = Some (s :: walk2).
Proof.
  intros Hk H. apply _center_app in H.
  pose proof (_center_cons _ _ _ _ H) as (Hs & _). by rewrite (Hk _ _ Hs).
Qed.

Lemma _center_targets_NoDup fuel code walk :
  keyed_by_target d → _center fuel code d = Some walk →
  NoDup (Segment.target <$> walk).
Proof.
  intros Hk. revert fuel code. induction walk as [|s walk IH]; intros fuel code H.
  - constructor.
  - pose proof H as H0.
    apply _center_cons in H as (Hs & fuel' & -> & H).
    rewrite fmap_cons. constructor; [|by eapply IH].
    intros (s' & Heq & Hin)%list_elem_of_fmap.
    apply list_elem_of_split in Hin as (w1 & w2 & ->).
    pose proof (_center_suffix _ _ _ _ _ Hk H) as H1.
    rewrite <-Heq, (Hk _ _ Hs) in H1.
    pose proof (_center_det _ _ _ _ _ H0 H1) as Hw.
    apply (f_equal length) in Hw. simpl in Hw. rewrite length_app in Hw.
    simpl in Hw. lia.
Qed.

Lemma _center_bounded fuel code walk :
  keyed_by_target d → _center fuel code d = Some walk →
  (length walk ≤ size d)%nat.
Proof.
  intros Hk H.
  pose proof (_center_targets_NoDup _ _ _ Hk H) as Hnd.
  rewrite <-(length_fmap Segment.target), <-(size_list_to_set (C:=gset Z)) by done.
  rewrite <-(size_dom (D:=gset Z) d). apply subseteq_size.
  intros k (s & -> & Hin)%elem_of_list_to_set%list_elem_of_fmap.
  apply elem_of_dom. rewrite (_center_elem _ _ _ _ Hk H Hin). eauto.
Qed.

End Walk.

Section Ancestors.

Context (d : gmap Z Segment.t).

Lemma ancestor_add m n code :
  ancestor d (m + n) code = ancestor d m code ≫= ancestor d n.
Proof.
  revert code. induction m as [|m IH]; intros code; [done|]. simpl.
  destruct (parent d code) as [c|]; [|done]. apply IH.
Qed.

(** Going round a cycle any number of times. *)
Lemma ancestor_cycle n c k :
  ancestor d (S n) c = Some c → ancestor d (k * S n) c = Some c.
Proof.
  intros H. induction k as [|k IH]; [done|].
  replace (S k * S n)%nat with (S n + k * S n)%nat by lia.
  by rewrite ancestor_add, H.
Qed.

(** A walk that stops has no ancestor beyond its end. *)
Lemma _center_ancestor_le fuel code walk k c :
  _center fuel code d = Some walk → ancestor d k code = Some c →
  (k ≤ length walk)%nat.
Proof.
  revert fuel code k. induction walk as [|s walk IH]; intros fuel code k H Hk.
  - apply _center_nil in H. destruct k as [|k]; [done|].
    simpl in Hk. unfold parent in Hk. by rewrite H in Hk.
  - apply _center_cons in H as (Hs & fuel' & -> & H).
    destruct k as [|k]; [simpl; lia|].
    simpl in Hk. unfold parent in Hk. rewrite Hs in Hk. simpl in Hk.
    apply (IH _ _ _ H) in Hk. simpl. lia.
Qed.

Lemma cycle_diverges code :
  cycle_reachable d code → ∀ fuel, _center fuel code d = None.
Proof.
  intros (m & n & c & Hm & Hc) fuel.
  destruct (_center fuel code d) as [walk|] eqn:E; [|done]. exfalso.
  assert (ancestor d (m + S (length walk) * S n) code = Some c) as H.
  { rewrite ancestor_add, Hm. by apply (ancestor_cycle n c (S (length walk))). }
  apply (_center_ancestor_le _ _ _ _ _ E) in H. lia.
Qed.

Lemma trail_length fuel code :
  _center fuel code d = None → length (trail fuel code d) = fuel.
Proof.
  revert code. induction fuel as [|fuel IH]; intros code H; [done|]. simpl in *.
  destruct (d !! code) as [s|]; [|done]. simpl. f_equal. apply IH.
  by destruct (_center fuel (Segment.center s) d).
Qed.

Lemma trail_lookup fuel code i c :
  trail fuel code d !! i = Some c → ancestor d i code = Some c ∧ is_Some (d !! c).
Proof.
  revert code i. induction fuel as [|fuel IH]; intros code i H; [done|]. simpl in H.
  destruct (d !! code) as [s|] eqn:Hs; [|done].
  destruct i as [|i]; simplify_eq/=; [eauto|].
  unfold parent. rewrite Hs. simpl. by apply IH.
Qed.

Lemma repeated_element (l : list Z) :
  ¬ NoDup l → ∃ i j x, (i < j)%nat ∧ l !! i = Some x ∧ l !! j = Some x.
Proof.
  induction l as [|a l IH]; intros Hnd.
  - destruct Hnd. constructor.
  - destruct (decide (a ∈ l)) as [Hin|Hin].
    + apply list_elem_of_lookup in Hin as [j Hj].
      exists 0%nat, (S j), a. split; [lia|done].
    + destruct IH as (i & j & x & Hij & Hi & Hj).
      { intros Hl. apply Hnd. by constructor. }
      exists (S i), (S j), x. split; [lia|done].
Qed.

(** A walk that is still running after more tests than the registry has
    keys has come back to a code it had met. *)
Lemma long_walk_cycles fuel code :
  (size d < fuel)%nat → _center fuel code d = None → cycle_reachable d code.
Proof.
  intros Hsize Hrun.
  destruct (repeated_element (trail fuel code d)) as (i & j & x & Hij & Hi & Hj).
  { intros Hnd. apply (size_list_to_set (C:=gset Z)) in Hnd.
    rewrite trail_length in Hnd by done.
    assert (list_to_set (trail fuel code d) ⊆ dom d) as Hsub.
    { intros k [i Hk]%elem_of_list_to_set%list_elem_of_lookup.
      apply elem_of_dom. by apply trail_lookup in Hk as [_ ?]. }
    apply subseteq_size in Hsub. rewrite size_dom in Hsub. lia. }
  apply trail_lookup in Hi as [Hi _]. apply trail_lookup in Hj as [Hj _].
  exists i, (j - i - 1)%nat, x. split; [done|].
  replace j with (i + S (j - i - 1))%nat in Hj by lia.
  by rewrite ancestor_add, Hi in Hj.
Qed.

End Ancestors.

Section Registry.

Lemma segment_dict_snoc segments s :
  segment_dict (segments ++ [s]) = <[Segment.target s := s]> (segment_dict segments).
Proof. unfold segment_dict. by rewrite foldl_app. Qed.

Lemma segment_dict_keyed segments : keyed_by_target (segment_dict segments).
Proof.
  induction segments as [|s segments IH] using rev_ind; intros k s' H.
  - unfold segment_dict in H. simpl in H. by rewrite lookup_empty in H.
  - rewrite segment_dict_snoc in H.
    destruct (decide (Segment.target s = k)) as [Heq|Hne].
    + subst k. rewrite lookup_insert_eq in H. by simplify_eq.
    + rewrite lookup_insert_ne in H by done. by apply IH.
Qed.

Lemma segment_dict_size segments :
  (size (segment_dict segments) ≤ length segments)%nat.
Proof.
  induction segments as [|s segments IH] using rev_ind; [done|].
  rewrite segment_dict_snoc, length_app, map_size_insert. simpl.
  destruct (segment_dict segments !! Segment.target s); simpl; lia.
Qed.

End Registry.

Section Monad.

Lemma bind_Ok {A B} (m : M A) (k : A → M B) st a st' :
  m st = (Ok a, st') → (m ≫= k) st = k a st'.
Proof. unfold mbind, M_bind. by intros ->. Qed.

Lemma bind_Raise {A B} (m : M A) (k : A → M B) st e st' :
  m st = (Raise e, st') → (m ≫= k) st = (Raise e, st').
Proof. unfold mbind, M_bind. by intros ->. Qed.

Lemma bind_OutOfFuel {A B} (m : M A) (k : A → M B) st st' :
  m st = (OutOfFuel, st') → (m ≫= k) st = (OutOfFuel, st').
Proof. unfold mbind, M_bind. by intros ->. Qed.

Lemma py_add_state a b st : (py_add a b st).2 = st.
Proof. by destruct a, b. Qed.

Lemma full_chainM_Some fuel code d chain st :
  full_chain fuel code d = Some chain → full_chainM fuel code d st = (Ok chain, st).
Proof. unfold full_chainM. by intros ->. Qed.

Lemma full_chainM_None fuel code d st :
  full_chain fuel code d = None → full_chainM fuel code d st = (OutOfFuel, st).
Proof. unfold full_chainM. by intros ->. Qed.

End Monad.

Section Reducer.

Lemma count_matches_cons s1 s2 chain1 chain2 :
  count_matches (s1 :: chain1) (s2 :: chain2) =
  if decide (Segment.target s1 = Segment.target s2)
  then S (count_matches chain1 chain2) else count_matches chain1 chain2.
Proof. unfold count_matches. simpl. rewrite filter_cons. simpl. by case_decide. Qed.

Lemma count_matches_none chain1 chain2 :
  (∀ j s1 s2, chain1 !! j = Some s1 → chain2 !! j = Some s2 →
              Segment.target s1 ≠ Segment.target s2) →
  count_matches chain1 chain2 = 0%nat.
Proof.
  revert chain2. induction chain1 as [|s1 chain1 IH]; intros [|s2 chain2] H; try done.
  rewrite count_matches_cons. case_decide as Heq.
  - by destruct (H 0%nat s1 s2).
  - apply IH. intros j. apply (H (S j)).
Qed.

Lemma full_chains_agree fuel d code1 code2 chain1 chain2 :
  keyed_by_target d →
  full_chain fuel code1 d = Some chain1 → full_chain fuel code2 d = Some chain2 →
  agree_on_prefix chain1 chain2.
Proof.
  unfold full_chain. intros Hk H1 H2 j s1 s2 Hj1 Hj2 Heq.
  destruct (_center fuel code1 d) as [w1|] eqn:E1; simplify_eq/=.
  destruct (_center fuel code2 d) as [w2|] eqn:E2; simplify_eq/=.
  assert (∀ w (s : Segment.t), reverse w !! j = Some s →
            w = reverse (drop (S j) (reverse w)) ++ s :: reverse (take j (reverse w)))
    as Hsplit.
  { intros w s Hs. rewrite <-(reverse_involutive w) at 1.
    rewrite <-(take_drop_middle _ _ _ Hs) at 1.
    by rewrite reverse_app, reverse_cons, <-app_assoc. }
  rewrite (Hsplit _ _ Hj1) in E1. rewrite (Hsplit _ _ Hj2) in E2.
  apply (_center_suffix _ _ _ _ _ _ Hk) in E1.
  apply (_center_suffix _ _ _ _ _ _ Hk) in E2.
  rewrite Heq in E1. pose proof (_center_det _ _ _ _ _ _ E1 E2) as Hw.
  injection Hw as -> Hrev. apply (inj reverse) in Hrev.
  rewrite (take_S_r _ _ _ Hj1), (take_S_r _ _ _ Hj2). by rewrite Hrev.
Qed.

End Reducer.

(** ** The light-time loop, run *)

Section LightTime.

Context (C_AUDAY : float) (length_of : vec3 → float).
Context (self : Solution.t) (jd : float).

Local Abbreviation estimate := (Solution.estimate C_AUDAY length_of self jd).
Local Abbreviation previous_estimate := (Solution.previous_estimate C_AUDAY length_of self jd).
Local Abbreviation target_time := (Solution.target_time C_AUDAY length_of self jd).
Local Abbreviation converged := (Solution.converged C_AUDAY length_of self jd).
Local Abbreviation separation := (Solution.separation length_of self jd).
Local Abbreviation first_converged := (Solution.first_converged C_AUDAY length_of self jd).
Local Abbreviation tc := (Solution.target_chain self).
Local Abbreviation cc := (Solution.center_chain self).
Local Abbreviation retries := (Solution.retries C_AUDAY length_of self jd).

Lemma estimate_separation k : estimate k = (separation (target_time k) / C_AUDAY)%float.
Proof. by destruct k. Qed.

Lemma first_converged_bounds k n j :
  first_converged k n = Some j →
  (k ≤ j < k + n)%nat ∧ converged j = true ∧ ∀ i, (k ≤ i < j)%nat → converged i = false.
Proof.
  revert k. induction n as [|n IH]; intros k H; [done|]. simpl in H.
  destruct (converged k) eqn:E.
  - simplify_eq. split_and!; [lia..|done|intros; lia].
  - apply IH in H as (? & ? & Hlt). split_and!; [lia..|done|].
    intros i Hi. destruct (decide (i = k)) as [->|]; [done|]. apply Hlt. lia.
Qed.

Lemma first_converged_None k n :
  first_converged k n = None ↔ ∀ i, (k ≤ i < k + n)%nat → converged i = false.
Proof.
  revert k. induction n as [|n IH]; intros k; simpl.
  - split; [intros; lia|done].
  - destruct (converged k) eqn:E.
    + split; [done|]. intros H. rewrite H in E by lia. done.
    + rewrite IH. split; intros H i Hi.
      * destruct (decide (i = k)) as [->|]; [done|]. apply H. lia.
      * apply H. lia.
Qed.

(** With a segment in one of the chains, the difference of the two
    positions is an array and [length_of] returns. *)
Lemma separation_measured jd_target st :
  Solution.has_segment self →
  Solution.py_length_of length_of
    (val_sub (_tally [] tc jd_target).1 (_tally [] cc jd).1) st
  = (Ok (separation jd_target), st).
Proof.
  intros Hseg. unfold Solution.separation.
  assert (is_array (val_sub (_tally [] tc jd_target).1 (_tally [] cc jd).1)) as Harr.
  { apply val_sub_is_array. destruct Hseg as [Hc|Ht].
    - right. by apply _tally_is_array.
    - left. by apply _tally_is_array. }
  by destruct (val_sub _ _).
Qed.

(** The loop, entered at pass [k] with [n] passes left. *)
Lemma light_time_loop_run n k st :
  Solution.has_segment self →
  let t := _tally [] tc (target_time k) in
  Solution.light_time_loop C_AUDAY length_of n self jd (_tally [] cc jd).1
    t.1 t.2 (separation (target_time k)) (previous_estimate k) st
  = match first_converged k n with
    | Some j =>
        let t := _tally [] tc (target_time j) in
        (Ok (t.1, t.2, estimate j),
         mkState (heap st) (log st ++ retries k (j - k)))
    | None =>
        (Raise failed_to_converge,
         mkState (heap st) (log st ++ retries k n))
    end.
Proof.
  intros Hseg. revert k st. induction n as [|n IH]; intros k st; simpl.
  { unfold Solution.retries. simpl. rewrite app_nil_r. by destruct st. }
  rewrite <-estimate_separation.
  change (Solution.within_tolerance (estimate k - previous_estimate k))
    with (converged k).
  destruct (converged k) eqn:E.
  - replace (k - k)%nat with 0%nat by lia. unfold Solution.retries. simpl.
    rewrite app_nil_r. by destruct st.
  - unfold mbind at 1, M_bind at 1, tallyM.
    pose proof (separation_measured (jd - estimate k)
      (mkState (heap st) (log st ++ [EvTally [] tc (jd - estimate k)])) Hseg) as Hm.
    destruct (_tally [] tc (jd - estimate k)) as [tp tv] eqn:Et.
    simpl in Hm. erewrite bind_Ok by exact Hm.
    pose proof (IH (S k) (mkState (heap st) (log st ++ [EvTally [] tc (jd - estimate k)]))) as IH'.
    simpl in IH'. rewrite Et in IH'. simpl in IH'. rewrite IH'.
    destruct (first_converged (S k) n) as [j|] eqn:Ej; simpl.
    + apply first_converged_bounds in Ej as (Hj & _).
      replace (j - k)%nat with (S (j - S k)) by lia.
      unfold Solution.retries. simpl. by rewrite <-app_assoc.
    + unfold Solution.retries. simpl. by rewrite <-app_assoc.
Qed.

(** What [Solution.at] does, in terms of the first pass that accepts. *)
Lemma Solution_at_run st :
  Solution.has_segment self →
  Solution.at_ C_AUDAY length_of self jd st
  = match first_converged 0 10 with
    | Some j =>
        (Ok (Solution.accepted C_AUDAY length_of self jd j),
         mkState (heap st)
           (log st ++ Solution.solver_trace C_AUDAY length_of self jd j))
    | None =>
        (Raise failed_to_converge,
         mkState (heap st)
           (log st ++ Solution.solver_trace C_AUDAY length_of self jd 10))
    end.
Proof.
  intros Hseg. unfold Solution.at_.
  unfold mbind at 1, M_bind at 1, tallyM at 1.
  pose proof (separation_measured jd
    (mkState (heap st) ((log st ++ [EvTally [] cc jd]) ++ [EvTally [] tc jd])) Hseg) as Hm.
  pose proof (light_time_loop_run 10 0
    (mkState (heap st) ((log st ++ [EvTally [] cc jd]) ++ [EvTally [] tc jd])) Hseg) as Hrun.
  cbv zeta in Hrun. unfold Solution.target_time at 1 2 3 in Hrun.
  unfold Solution.previous_estimate in Hrun.
  destruct (_tally [] cc jd) as [cp cv] eqn:Ec.
  unfold mbind at 1, M_bind at 1, tallyM at 1.
  destruct (_tally [] tc jd) as [tp tv] eqn:Et.
  simpl fst in *. simpl snd in *. simpl heap in *. simpl log in *.
  erewrite bind_Ok by exact Hm.
  unfold mbind at 1, M_bind at 1.
  rewrite Hrun. clear Hrun Hm.
  destruct (first_converged 0 10) as [j|] eqn:Ej.
  - cbv zeta. destruct (_tally [] tc (target_time j)) as [tpj tvj] eqn:Etj.
    unfold mret, M_ret, Solution.accepted. rewrite Ec, Etj. simpl.
    unfold Solution.solver_trace, Solution.retries. rewrite Nat.sub_0_r.
    by rewrite <-!app_assoc.
  - unfold Solution.solver_trace, Solution.retries. by rewrite <-!app_assoc.
Qed.

(** A solution with two empty chains: both tallies are the float [0.0], and
    so is their difference. *)
Lemma Solution_at_empty st :
  cc = [] → tc = [] →
  Solution.at_ C_AUDAY length_of self jd st
  = (Raise AttributeError,
     mkState (heap st) (log st ++ [EvTally [] [] jd; EvTally [] [] jd])).
Proof.
  intros Hc Ht. unfold Solution.at_. rewrite Hc, Ht.
  unfold mbind, M_bind, tallyM. simpl. by rewrite <-app_assoc.
Qed.

Lemma has_segment_dec : Solution.has_segment self ∨ (cc = [] ∧ tc = []).
Proof.
  unfold Solution.has_segment.
  destruct cc; [|by left; left]. destruct tc; [by right|by left; right].
Qed.

End LightTime.

(** ** The facade methods, run *)

Section Facade.

Lemma Body_at_run fuel self jd st :
  Body.at_ fuel self jd st
  = match full_chain fuel (Body.code self)
            (segment_dict (items_of (heap st) (Body.segments self))) with
    | Some chain =>
        (Ok (new_position Barycentric
               (_tally [] chain jd).1 (_tally [] chain jd).2 jd),
         mkState (heap st) (log st ++ [EvTally [] chain jd]))
    | None => (OutOfFuel, st)
    end.
Proof.
  unfold Body.at_. erewrite bind_Ok by reflexivity.
  destruct (full_chain _ _ _) as [chain|] eqn:E.
  - erewrite bind_Ok by by apply full_chainM_Some.
    unfold mbind, M_bind, tallyM. by destruct (_tally [] chain jd).
  - by erewrite bind_OutOfFuel by by apply full_chainM_None.
Qed.

Lemma full_chain_mono fuel fuel' code d chain :
  full_chain fuel code d = Some chain → (fuel ≤ fuel')%nat →
  full_chain fuel' code d = Some chain.
Proof.
  unfold full_chain. intros H Hle.
  destruct (_center fuel code d) as [w|] eqn:E; [|done].
  by rewrite (_center_mono _ _ _ _ _ E Hle).
Qed.

End Facade.

(** ** Stationary chains *)

Section Stationary.

Context (C_AUDAY : float) (length_of : vec3 → float).

Lemma estimate_stationary self jd k :
  Solution.stationary self →
  Solution.estimate C_AUDAY length_of self jd k
  = (Solution.separation length_of self jd jd / C_AUDAY)%float.
Proof.
  intros Hst. destruct k as [|k]; [done|]. simpl.
  unfold Solution.separation.
  rewrite (tally_stationary (Solution.target_chain self) _ jd); [done|].
  intros s Hs. apply Hst, elem_of_app. by right.
Qed.

End Stationary.

(** ** Operations that leave the store alone *)

Section Frame.

Lemma preserves_heap_ret {A} (a : A) : preserves_heap (mret a).
Proof. done. Qed.

Lemma preserves_heap_raise {A} e : preserves_heap (raise (A:=A) e).
Proof. done. Qed.

Lemma preserves_heap_bind {A B} (m : M A) (k : A → M B) :
  preserves_heap m → (∀ a, preserves_heap (k a)) → preserves_heap (m ≫= k).
Proof.
  intros Hm Hk st. unfold mbind, M_bind. specialize (Hm st).
  destruct (m st) as [[a|e|] st']; simpl in *; [|done..].
  by rewrite Hk.
Qed.

Lemma preserves_heap_py_items s : preserves_heap (py_items s).
Proof. done. Qed.

Lemma preserves_heap_py_add a b : preserves_heap (py_add a b).
Proof. by destruct a, b. Qed.

Lemma preserves_heap_py_first xs : preserves_heap (py_first xs).
Proof. by destruct xs. Qed.

Lemma preserves_heap_tallyM minus_chain plus_chain jd :
  preserves_heap (tallyM minus_chain plus_chain jd).
Proof. done. Qed.

Lemma preserves_heap_full_chainM fuel code d :
  preserves_heap (full_chainM fuel code d).
Proof. unfold full_chainM. by destruct (full_chain fuel code d). Qed.

Lemma preserves_heap_connect fuel body1 body2 :
  preserves_heap (_connect fuel body1 body2).
Proof.
  unfold _connect.
  repeat (apply preserves_heap_bind; [|intros ?]);
    auto using preserves_heap_py_add, preserves_heap_full_chainM,
               preserves_heap_py_first.
  case_decide; [apply preserves_heap_raise|apply preserves_heap_ret].
Qed.

End Frame.

(** ** [observe] *)

Section Observe.

Lemma observe_unfold fuel self body :
  Body.observe fuel self body
  = '(segments, target) ← observe_operands self body;
    observe_chains fuel self segments target.
Proof. by destruct body. Qed.

Lemma preserves_heap_observe_chains fuel self segments target :
  preserves_heap (observe_chains fuel self segments target).
Proof.
  unfold observe_chains.
  do 5 (apply preserves_heap_bind;
        [auto using preserves_heap_py_items, preserves_heap_full_chainM,
                    preserves_heap_py_first|intros ?]).
  case_match; [apply preserves_heap_ret|apply preserves_heap_raise].
Qed.

Lemma observe_chains_rooted fuel self segments target st c0 center_chain t0 target_chain :
  let d := segment_dict (items_of (heap st) segments) in
  full_chain fuel (Body.code self) d = Some (c0 :: center_chain) →
  full_chain fuel target d = Some (t0 :: target_chain) →
  observe_chains fuel self segments target st
  = (if bool_decide (Segment.center c0 = 0%Z ∧ Segment.center t0 = 0%Z)
     then Ok (Solution.mk (Body.code self) target (c0 :: center_chain)
                (t0 :: target_chain))
     else Raise cannot_observe, st).
Proof.
  intros d Hc Ht. unfold observe_chains.
  erewrite bind_Ok by reflexivity. fold d.
  erewrite bind_Ok by by apply full_chainM_Some.
  erewrite bind_Ok by by apply full_chainM_Some.
  do 2 (erewrite bind_Ok by reflexivity).
  destruct (decide (Segment.center c0 = 0%Z ∧ Segment.center t0 = 0%Z)) as [[Hc0 Ht0]|Hno].
  - rewrite Hc0, Ht0. by rewrite !bool_decide_eq_true_2.
  - rewrite (bool_decide_eq_false_2 (_ ∧ _)) by done.
    destruct (decide (Segment.center t0 = 0%Z)) as [Ht0|Ht0].
    + rewrite (bool_decide_eq_false_2 (Segment.center c0 = _)); [done|].
      intros Heq. apply Hno. split; congruence.
    + rewrite (bool_decide_eq_false_2 (Segment.center t0 = 0%Z)) by done.
      by rewrite andb_false_r.
Qed.

End Observe.

(** ** The registry, further *)

Section RegistryLookup.

Lemma segment_dict_lookup segments k :
  segment_dict segments !! k = last (with_target k segments).
Proof.
  unfold with_target.
  induction segments as [|s segments IH] using rev_ind; [done|].
  rewrite segment_dict_snoc, filter_app, filter_cons, filter_nil.
  case_decide as Heq.
  - subst k. by rewrite lookup_insert_eq, last_snoc.
  - by rewrite lookup_insert_ne, app_nil_r.
Qed.

Lemma segment_dict_app xs ys :
  segment_dict (xs ++ ys) = segment_dict ys ∪ segment_dict xs.
Proof.
  apply map_eq. intros k. rewrite lookup_union, !segment_dict_lookup.
  unfold with_target. rewrite filter_app.
  destruct (filter _ ys) as [|y fy _] using rev_ind.
  - rewrite app_nil_r. simpl. by destruct (last _).
  - rewrite app_assoc, !last_snoc. by destruct (last _).
Qed.

Lemma segment_dict_twice xs : segment_dict (xs ++ xs) = segment_dict xs.
Proof.
  rewrite segment_dict_app. apply map_eq. intros k. rewrite lookup_union.
  by destruct (segment_dict xs !! k).
Qed.

Lemma segment_dict_elem segments k s :
  segment_dict segments !! k = Some s → s ∈ segments.
Proof.
  rewrite segment_dict_lookup. intros H%last_Some_elem_of.
  unfold with_target in H. by apply list_elem_of_filter in H as [_ ?].
Qed.

End RegistryLookup.

(** ** The chain as a path *)

Section Path.

Context (d : gmap Z Segment.t) (Hk : keyed_by_target d).

Lemma _center_head fuel code s walk :
  _center fuel code d = Some (s :: walk) → Segment.target s = code.
Proof. intros H. apply _center_cons in H as [Hs _]. by apply Hk. Qed.

Lemma _center_linked fuel code walk i s s' :
  _center fuel code d = Some walk →
  walk !! i = Some s → walk !! S i = Some s' →
  Segment.target s' = Segment.center s.
Proof.
  revert fuel code i. induction walk as [|s0 walk IH]; intros fuel code i H Hi HSi; [done|].
  apply _center_cons in H as (Hs0 & fuel' & -> & H).
  destruct i as [|i]; simplify_eq/=.
  - destruct walk as [|s1 walk]; simplify_eq/=. by eapply _center_head.
  - by eapply IH.
Qed.

Lemma full_chain_linked fuel code chain :
  full_chain fuel code d = Some chain → linked chain.
Proof.
  unfold full_chain. intros H i s s' Hi HSi.
  destruct (_center fuel code d) as [walk|] eqn:E; simplify_eq/=.
  apply reverse_lookup_Some in Hi as [Hi Hlt].
  apply reverse_lookup_Some in HSi as [HSi HSlt].
  replace (length walk - S i)%nat with (S (length walk - S (S i))) in Hi by lia.
  symmetry. by eapply (_center_linked _ _ _ _ s' s).
Qed.

Lemma full_chain_last fuel code chain s :
  full_chain fuel code d = Some chain → last chain = Some s →
  Segment.target s = code.
Proof.
  unfold full_chain. intros H Hlast.
  destruct (_center fuel code d) as [walk|] eqn:E; simplify_eq/=.
  rewrite last_reverse in Hlast. destruct walk as [|s0 walk]; simplify_eq/=.
  by eapply _center_head.
Qed.

Lemma full_chain_root fuel code chain s :
  full_chain fuel code d = Some chain → head chain = Some s →
  d !! Segment.center s = None.
Proof.
  unfold full_chain. intros H Hhead.
  destruct (_center fuel code d) as [walk|] eqn:E; simplify_eq/=.
  rewrite head_reverse in Hhead. apply _center_end in E.
  unfold walk_end in E. by rewrite Hhead in E.
Qed.

Lemma full_chain_nil fuel code :
  full_chain fuel code d = Some [] ↔ d !! code = None ∧ (0 < fuel)%nat.
Proof.
  unfold full_chain. split.
  - intros H. destruct (_center fuel code d) as [walk|] eqn:E; simplify_eq/=.
    assert (walk = []) as -> by (by apply (inj reverse)).
    split; [by eapply _center_nil|]. destruct fuel; [done|lia].
  - intros [H Hfuel]. destruct fuel as [|fuel]; [lia|]. simpl. by rewrite H.
Qed.

(** The chain of a body that has a segment is its parent's chain and then
    that segment. *)
Lemma full_chain_step fuel code s :
  d !! code = Some s →
  full_chain (S fuel) code d = (λ chain, chain ++ [s]) <$> full_chain fuel (Segment.center s) d.
Proof.
  intros Hs. unfold full_chain. simpl. rewrite Hs.
  destruct (_center fuel (Segment.center s) d) as [walk|]; [|done].
  simpl. by rewrite reverse_cons.
Qed.

End Path.

(** ** The reducer, further *)

Section ReducerMore.

Lemma count_matches_sym chain1 chain2 :
  count_matches chain1 chain2 = count_matches chain2 chain1.
Proof.
  revert chain2. induction chain1 as [|s1 chain1 IH]; intros [|s2 chain2]; try done.
  rewrite !count_matches_cons, IH.
  destruct (decide (Segment.target s1 = Segment.target s2)) as [Heq|Hne].
  - by rewrite decide_True.
  - by rewrite decide_False.
Qed.

(** The split of two chains at the end of their common prefix: the rests
    have no position where the targets agree. *)
Lemma count_matches_split chain1 chain2 :
  agree_on_prefix chain1 chain2 →
  ∃ shared rest1 rest2,
    chain1 = shared ++ rest1 ∧ chain2 = shared ++ rest2
    ∧ count_matches chain1 chain2 = length shared
    ∧ ∀ j s1 s2, rest1 !! j = Some s1 → rest2 !! j = Some s2 →
                 Segment.target s1 ≠ Segment.target s2.
Proof.
  revert chain2. induction chain1 as [|s1 chain1 IH]; intros chain2 H.
  { exists [], [], chain2. split_and!; done. }
  destruct chain2 as [|s2 chain2].
  { exists [], (s1 :: chain1), []. split_and!; done. }
  rewrite count_matches_cons. case_decide as Heq.
  - pose proof (H 0%nat s1 s2 eq_refl eq_refl Heq) as Hhead. simplify_eq/=.
    destruct (IH chain2) as (shared & rest1 & rest2 & -> & -> & Hcount & Hno).
    { intros j x1 x2 Hx1 Hx2 Hx.
      pose proof (H (S j) x1 x2 Hx1 Hx2 Hx) as Htake. by simplify_eq/=. }
    exists (s2 :: shared), rest1, rest2. simpl. by rewrite Hcount.
  - assert (∀ j x1 x2, (s1 :: chain1) !! j = Some x1 → (s2 :: chain2) !! j = Some x2 →
                       Segment.target x1 ≠ Segment.target x2) as Hno.
    { intros [|j] x1 x2 Hx1 Hx2 Hx; simplify_eq/=.
      pose proof (H (S j) x1 x2 Hx1 Hx2 Hx) as Htake. simplify_eq/=. }
    exists [], (s1 :: chain1), (s2 :: chain2). split_and!; [done..| |done].
    apply count_matches_none. intros j. apply (Hno (S j)).
Qed.

(** The walk from the target of the segment at position [a] of a chain is
    that segment and the chain before it. *)
Lemma full_chain_depth d fuel code chain a s :
  keyed_by_target d → full_chain fuel code d = Some chain → chain !! a = Some s →
  _center fuel (Segment.target s) d = Some (s :: reverse (take a chain)).
Proof.
  unfold full_chain. intros Hk H Ha.
  destruct (_center fuel code d) as [w|] eqn:E; simplify_eq/=.
  assert (w = reverse (drop (S a) (reverse w)) ++ s :: reverse (take a (reverse w))) as Hw.
  { rewrite <-(reverse_involutive w) at 1.
    rewrite <-(take_drop_middle _ _ _ Ha) at 1.
    by rewrite reverse_app, reverse_cons, <-app_assoc. }
  rewrite Hw in E. by apply (_center_suffix _ _ _ _ _ _ Hk) in E.
Qed.

Lemma py_add_same s st :
  (py_add s s st).1 = Ok (items_of (heap st) s ++ items_of (heap st) s).
Proof. by destruct s. Qed.

(** [_connect], once the collections are merged and both chains resolved. *)
Lemma connect_run fuel b1 b2 st every chainA chainB :
  (py_add (Body.segments b1) (Body.segments b2) st).1 = Ok every →
  full_chain fuel (Body.code b1) (segment_dict every) = Some chainA →
  full_chain fuel (Body.code b2) (segment_dict every) = Some chainB →
  _connect fuel b1 b2 st
  = (match chainA, chainB with
     | a :: _, b :: _ =>
         if decide (Segment.center a = Segment.center b)
         then Ok (drop (count_matches chainA chainB) chainA,
                  drop (count_matches chainA chainB) chainB)
         else Raise no_common_center
     | _, _ => Raise IndexError
     end, st).
Proof.
  intros Hadd HA HB. unfold _connect.
  erewrite bind_Ok; last first.
  { pose proof (py_add_state (Body.segments b1) (Body.segments b2) st) as Hst.
    destruct (py_add _ _ st) as [o st']. simpl in *. by subst. }
  erewrite bind_Ok by by apply full_chainM_Some.
  erewrite bind_Ok by by apply full_chainM_Some.
  destruct chainA as [|a chainA]; [done|].
  erewrite bind_Ok by reflexivity.
  destruct chainB as [|b chainB]; [done|].
  erewrite bind_Ok by reflexivity.
  destruct (decide (Segment.center a = Segment.center b)) as [Heq|Hne].
  - by rewrite decide_False by (intros Hne; by apply Hne).
  - by rewrite decide_True.
Qed.

(** [_connect] on two chains with one root: the split at the common prefix. *)
Lemma connect_resolved fuel b1 b2 st every chainA chainB :
  (py_add (Body.segments b1) (Body.segments b2) st).1 = Ok every →
  full_chain fuel (Body.code b1) (segment_dict every) = Some chainA →
  full_chain fuel (Body.code b2) (segment_dict every) = Some chainB →
  same_root chainA chainB →
  ∃ shared restA restB,
    chainA = shared ++ restA ∧ chainB = shared ++ restB
    ∧ _connect fuel b1 b2 st = (Ok (restA, restB), st)
    ∧ ∀ j s1 s2, restA !! j = Some s1 → restB !! j = Some s2 →
                 Segment.target s1 ≠ Segment.target s2.
Proof.
  intros Hadd HA HB (r & HrA & HrB).
  destruct (count_matches_split chainA chainB)
    as (shared & restA & restB & EA & EB & Hn & Hno).
  { eapply full_chains_agree; eauto using segment_dict_keyed. }
  exists shared, restA, restB. split_and!; [done..| |done].
  rewrite (connect_run _ _ _ _ _ _ _ Hadd HA HB).
  destruct chainA as [|a chainA]; [done|]. destruct chainB as [|b chainB]; [done|].
  unfold chain_root in *. simplify_eq/=.
  rewrite decide_True by congruence.
  by rewrite Hn, EA, EB, !drop_app_length.
Qed.

Lemma Geometry_at_run g jd st :
  Geometry.at_ g jd st
  = (Ok (new_position
           (if decide (Geometry.center g = 0%Z) then Barycentric else ICRS)
           (_tally (Geometry.center_chain g) (Geometry.target_chain g) jd).1
           (_tally (Geometry.center_chain g) (Geometry.target_chain g) jd).2 jd),
     mkState (heap st)
       (log st ++ [EvTally (Geometry.center_chain g) (Geometry.target_chain g) jd])).
Proof.
  unfold Geometry.at_, mbind, M_bind, tallyM.
  by destruct (_tally (Geometry.center_chain g) (Geometry.target_chain g) jd).
Qed.

End ReducerMore.

Section ReducerInversion.

Lemma linked_app_r shared rest : linked (shared ++ rest) → linked rest.
Proof.
  intros H i s s' Hi HSi. apply (H (length shared + i)%nat).
  - by rewrite lookup_app_r, Nat.add_comm, Nat.add_sub by lia.
  - replace (S (length shared + i)) with (length shared + S i)%nat by lia.
    by rewrite lookup_app_r, Nat.add_comm, Nat.add_sub by lia.
Qed.

Lemma connect_Ok_inv fuel b1 b2 st every pruned :
  (py_add (Body.segments b1) (Body.segments b2) st).1 = Ok every →
  (_connect fuel b1 b2 st).1 = Ok pruned →
  ∃ chainA chainB,
    full_chain fuel (Body.code b1) (segment_dict every) = Some chainA
    ∧ full_chain fuel (Body.code b2) (segment_dict every) = Some chainB
    ∧ same_root chainA chainB.
Proof.
  intros Hadd Hok.
  assert (py_add (Body.segments b1) (Body.segments b2) st = (Ok every, st)) as Hadd'.
  { pose proof (py_add_state (Body.segments b1) (Body.segments b2) st) as Hst.
    destruct (py_add _ _ st) as [o st']. simpl in *. by subst. }
  destruct (full_chain fuel (Body.code b1) (segment_dict every)) as [chainA|] eqn:HA;
    last first.
  { unfold _connect in Hok. erewrite bind_Ok in Hok by exact Hadd'.
    by erewrite bind_OutOfFuel in Hok by by apply full_chainM_None. }
  destruct (full_chain fuel (Body.code b2) (segment_dict every)) as [chainB|] eqn:HB;
    last first.
  { unfold _connect in Hok. erewrite bind_Ok in Hok by exact Hadd'.
    erewrite bind_Ok in Hok by by apply full_chainM_Some.
    by erewrite bind_OutOfFuel in Hok by by apply full_chainM_None. }
  exists chainA, chainB. split_and!; [done..|].
  rewrite (connect_run _ _ _ _ _ _ _ Hadd HA HB) in Hok.
  destruct chainA as [|a chainA]; [done|]. destruct chainB as [|b chainB]; [done|].
  simpl in Hok. case_decide as Heq; [|done].
  by exists (Segment.center a); unfold chain_root; simpl; rewrite ?Heq.
Qed.

End ReducerInversion.

(** ** [observe], further *)

Section ObserveMore.

Lemma observe_operands_list self body st l :
  Body.segments self = PyList l →
  observe_operands self (Body.ABody body) st
  = (Ok (PyList l, Body.code body),
     mkState (<[l := items_of (heap st) (PyList l)
                     ++ items_of (heap st) (Body.segments body)]> (heap st))
             (log st)).
Proof. intros Hl. unfold observe_operands. by rewrite Hl. Qed.

Lemma observe_chains_log fuel self segments target st :
  log (observe_chains fuel self segments target st).2 = log st.
Proof.
  unfold observe_chains. erewrite bind_Ok by reflexivity.
  unfold full_chainM.
  destruct (full_chain fuel (Body.code self) _) as [cc|]; [|done].
  erewrite bind_Ok by reflexivity.
  destruct (full_chain fuel target _) as [tc|]; [|done].
  erewrite bind_Ok by reflexivity.
  destruct cc as [|c0 cc]; [done|]. erewrite bind_Ok by reflexivity.
  destruct tc as [|t0 tc]; [done|]. erewrite bind_Ok by reflexivity.
  by case_match.
Qed.

End ObserveMore.

Section ObserveInversion.

Lemma observe_operands_same self body st :
  Body.segments body = Body.segments self →
  ∃ segments st1,
    observe_operands self (Body.ABody body) st = (Ok (segments, Body.code body), st1)
    ∧ items_of (heap st1) segments
      = items_of (heap st) (Body.segments self) ++ items_of (heap st) (Body.segments self).
Proof.
  intros Hsegs. unfold observe_operands. rewrite Hsegs.
  destruct (Body.segments self) as [l|xs]; simpl.
  - eexists _, _. split; [done|]. simpl. by rewrite lookup_insert_eq.
  - by eexists _, _.
Qed.

Lemma observe_chains_Ok_inv fuel self segments target st sol :
  (observe_chains fuel self segments target st).1 = Ok sol →
  ∃ center_chain target_chain,
    full_chain fuel (Body.code self) (segment_dict (items_of (heap st) segments))
    = Some center_chain
    ∧ full_chain fuel target (segment_dict (items_of (heap st) segments))
      = Some target_chain
    ∧ sol = Solution.mk (Body.code self) target center_chain target_chain.
Proof.
  unfold observe_chains. erewrite bind_Ok by reflexivity. unfold full_chainM.
  destruct (full_chain fuel (Body.code self) _) as [cc|]; [|done].
  erewrite bind_Ok by reflexivity.
  destruct (full_chain fuel target _) as [tc|]; [|done].
  erewrite bind_Ok by reflexivity.
  destruct cc as [|c0 cc]; [done|]. erewrite bind_Ok by reflexivity.
  destruct tc as [|t0 tc]; [done|]. erewrite bind_Ok by reflexivity.
  case_match; [|done]. intros [= <-]. by eexists _, _.
Qed.

End ObserveInversion.

Section ObserveAftermath.

Lemma observe_list_heap fuel self body st l :
  Body.segments self = PyList l →
  heap (Body.observe fuel self (Body.ABody body) st).2
  = <[l := items_of (heap st) (PyList l)
           ++ items_of (heap st) (Body.segments body)]> (heap st).
Proof.
  intros Hl. rewrite observe_unfold. unfold mbind, M_bind.
  rewrite (observe_operands_list _ _ _ _ Hl).
  pose proof (preserves_heap_observe_chains fuel self (PyList l) (Body.code body)) as Hp.
  set (st1 := mkState _ _) in *. specialize (Hp st1).
  by destruct (observe_chains _ _ _ _ st1) as [[?|?|] ?].
Qed.

End ObserveAftermath.

Section ObserveRegistry.

(** What [observe] does after its operands depends on the store only
    through the registry. *)
Lemma observe_chains_registry fuel self segments1 segments2 target st1 st2 :
  segment_dict (items_of (heap st1) segments1)
  = segment_dict (items_of (heap st2) segments2) →
  (observe_chains fuel self segments1 target st1).1
  = (observe_chains fuel self segments2 target st2).1.
Proof.
  intros Hd. unfold observe_chains, mbind, M_bind, py_items, full_chainM.
  rewrite Hd.
  destruct (full_chain fuel (Body.code self) _) as [cc|]; [|done]. simpl.
  destruct (full_chain fuel target _) as [tc|]; [|done]. simpl.
  destruct cc as [|c0 cc]; [done|]. simpl.
  destruct tc as [|t0 tc]; [done|]. simpl.
  by case_match.
Qed.

End ObserveRegistry.

(** ** The shape of a tally, and solutions built by [observe] *)

Section Shape.

Lemma foldl_tally_minus_is_array jd chain acc :
  is_array acc.1 ∧ is_array acc.2 →
  is_array (foldl (tally_minus jd) acc chain).1
  ∧ is_array (foldl (tally_minus jd) acc chain).2.
Proof.
  revert acc. induction chain as [|s chain IH]; intros acc Hacc; [done|].
  simpl. apply IH. rewrite tally_minus_spec. simpl.
  split; apply val_sub_is_array; by right.
Qed.

Lemma observe_chains_Ok_nonempty fuel self segments target st sol :
  (observe_chains fuel self segments target st).1 = Ok sol →
  Solution.center_chain sol ≠ [] ∧ Solution.target_chain sol ≠ [].
Proof.
  unfold observe_chains. erewrite bind_Ok by reflexivity. unfold full_chainM.
  destruct (full_chain fuel (Body.code self) _) as [cc|]; [|done].
  erewrite bind_Ok by reflexivity.
  destruct (full_chain fuel target _) as [tc|]; [|done].
  erewrite bind_Ok by reflexivity.
  destruct cc as [|c0 cc]; [done|]. erewrite bind_Ok by reflexivity.
  destruct tc as [|t0 tc]; [done|]. erewrite bind_Ok by reflexivity.
  case_match; [|done]. by intros [= <-].
Qed.

Lemma observe_Ok_nonempty fuel self body st sol :
  (Body.observe fuel self body st).1 = Ok sol →
  Solution.center_chain sol ≠ [] ∧ Solution.target_chain sol ≠ [].
Proof.
  rewrite observe_unfold. unfold mbind at 1, M_bind at 1.
  destruct (observe_operands self body st) as [[[segments target]|e|] st1]; [|done..].
  apply observe_chains_Ok_nonempty.
Qed.

End Shape.

(** * The claims *)

(** C1. With the segments S1 = (center 0, target 3, compute(t) =
    ((t,0,0),(1,0,0))) and S2 = (center 3, target 399, compute(t) =
    ((0,1,0),(0,0,0))), in either order and in a list or a tuple,
    [Body(code=399).at(5)] returns the barycentric position (5,1,0) with
    velocity (1,0,0), after one tally of the chain S1, S2. *)
Theorem concrete_scenario (fuel : nat) (st : state) (self : Body.t) :
  Body.code self = 399%Z →
  items_of (heap st) (Body.segments self) ≡ₚ [Example.S1; Example.S2] →
  (3 ≤ fuel)%nat →
  Body.at_ fuel self 5 st
  = (Ok (new_position Barycentric
           (PyArray (V3 5 1 0)) (PyArray (V3 1 0 0)) 5),
     mkState (heap st) (log st ++ [EvTally [] [Example.S1; Example.S2] 5])).
Proof.
  intros Hcode Hitems Hfuel. rewrite Body_at_run, Hcode.
  assert (full_chain 3 399 (segment_dict (items_of (heap st) (Body.segments self)))
          = Some [Example.S1; Example.S2]) as Hchain.
  { symmetry in Hitems. apply Permutation_length_2_inv in Hitems as [-> | ->];
      vm_compute; reflexivity. }
  rewrite (full_chain_mono _ _ _ _ _ Hchain Hfuel). reflexivity.
Qed.

Lemma concrete_scenario_witness :
  Body.at_ 3 Example.earth 5 Example.store
  = (Ok (new_position Barycentric
           (PyArray (V3 5 1 0)) (PyArray (V3 1 0 0)) 5),
     mkState (heap Example.store)
       (log Example.store ++ [EvTally [] [Example.S1; Example.S2] 5])).
Proof. apply concrete_scenario; [reflexivity | reflexivity | lia]. Defined.

(** C2 (amended). Pruning drops the shared prefix and nothing else.  When
    the merged collection of two bodies resolves both to chains that are not
    empty and start from one root, [_connect] returns each full chain
    without the segments the two chains start with in common, all of them.
    These segments cancel exactly: for every coordinate of position and
    velocity and every time, the exact sum over the pruned chains -- the
    center's as the minus chain, the target's as the plus chain -- is the
    exact sum over the target's full chain less that over the center's; and
    where [_tally] leaves no rounding error in the three tallies, the pruned
    tally is the difference of the two full tallies.  [_tally] rounds every
    addition, and in general the rounded results need not agree (see
    below). *)
Theorem pruning_drops_shared_prefix (fuel : nat) (st : state) (body1 body2 : Body.t)
    (every chainA chainB : list Segment.t) :
  (py_add (Body.segments body1) (Body.segments body2) st).1 = Ok every →
  full_chain fuel (Body.code body1) (segment_dict every) = Some chainA →
  full_chain fuel (Body.code body2) (segment_dict every) = Some chainB →
  same_root chainA chainB →
  ∃ shared pruned_center pruned_target,
    _connect fuel body1 body2 st = (Ok (pruned_center, pruned_target), st)
    ∧ chainA = shared ++ pruned_center
    ∧ chainB = shared ++ pruned_target
    ∧ (∀ j s1 s2, pruned_center !! j = Some s1 → pruned_target !! j = Some s2 →
                  Segment.target s1 ≠ Segment.target s2)
    ∧ (∀ c t,
         Exact.tally c pruned_center pruned_target t
         = (Exact.tally c [] chainB t - Exact.tally c [] chainA t)%Qc)
    ∧ (∀ c t,
         Exact.is_exact c pruned_center pruned_target t →
         Exact.is_exact c [] chainB t → Exact.is_exact c [] chainA t →
         Exact.result c (_tally pruned_center pruned_target t)
         = (Exact.result c (_tally [] chainB t)
            - Exact.result c (_tally [] chainA t))%Qc).
Proof.
  intros Hadd HA HB Hroot.
  destruct (connect_resolved _ _ _ _ _ _ _ Hadd HA HB Hroot)
    as (shared & restA & restB & -> & -> & Hconn & Hno).
  exists shared, restA, restB. split_and!; [done..| |].
  - intros c t. apply exact_tally_prefix.
  - intros c t. apply is_exact_prefix.
Qed.

Lemma pruning_drops_shared_prefix_witness :
  ∃ shared pruned_center pruned_target,
    _connect 3 Example2.earth Example2.moon Example.idle
    = (Ok (pruned_center, pruned_target), Example.idle)
    ∧ [Example.S1; Example.S2] = shared ++ pruned_center
    ∧ [Example.S1; Example2.S3] = shared ++ pruned_target
    ∧ (∀ j s1 s2, pruned_center !! j = Some s1 → pruned_target !! j = Some s2 →
                  Segment.target s1 ≠ Segment.target s2)
    ∧ (∀ c t,
         Exact.tally c pruned_center pruned_target t
         = (Exact.tally c [] [Example.S1; Example2.S3] t
            - Exact.tally c [] [Example.S1; Example.S2] t)%Qc)
    ∧ (∀ c t,
         Exact.is_exact c pruned_center pruned_target t →
         Exact.is_exact c [] [Example.S1; Example2.S3] t →
         Exact.is_exact c [] [Example.S1; Example.S2] t →
         Exact.result c (_tally pruned_center pruned_target t)
         = (Exact.result c (_tally [] [Example.S1; Example2.S3] t)
            - Exact.result c (_tally [] [Example.S1; Example.S2] t))%Qc).
Proof.
  apply (pruning_drops_shared_prefix 3 Example.idle Example2.earth Example2.moon
           (Example2.trio ++ Example2.trio));
    [reflexivity | reflexivity | reflexivity |].
  exists 0%Z. split; reflexivity.
Defined.

(** In the scenario of the specification, at time 5, the three tallies are
    exact in every coordinate. *)
Lemma scenario_tallies_are_exact (c : Exact.coordinate) :
  Exact.is_exact c [Example.S2] [Example2.S3] 5
  ∧ Exact.is_exact c [] [Example.S1; Example2.S3] 5
  ∧ Exact.is_exact c [] [Example.S1; Example.S2] 5.
Proof.
  destruct c; split_and!; (split; [reflexivity|]); apply Qc_is_canon; reflexivity.
Qed.

(** C2, counterexample.  Body 3 is 0.2 AU from the root, and bodies 399 and
    301 are 0.1 AU and 0.3 AU from body 3.  The chains of 399 and 301 share
    the segment of body 3 and [_connect] prunes it.  Tallying the pruned
    chains gives the position 0.19999999999999998; tallying the full chains
    and subtracting gives 0.19999999999999996. *)
Lemma pruned_tally_differs_in_last_bit :
  let every := [Example3.D2; Example3.D1; Example3.D3]
               ++ [Example3.D2; Example3.D1; Example3.D3] in
  full_chain 3 399 (segment_dict every) = Some [Example3.D2; Example3.D1]
  ∧ full_chain 3 301 (segment_dict every) = Some [Example3.D2; Example3.D3]
  ∧ same_root [Example3.D2; Example3.D1] [Example3.D2; Example3.D3]
  ∧ _connect 3 Example3.earth Example3.moon Example.idle
    = (Ok ([Example3.D1], [Example3.D3]), Example.idle)
  ∧ (_tally [Example3.D1] [Example3.D3] 0).1
    = PyArray (V3 0.19999999999999998 0 0)
  ∧ val_sub (_tally [] [Example3.D2; Example3.D3] 0).1
            (_tally [] [Example3.D2; Example3.D1] 0).1
    = PyArray (V3 0.19999999999999996 0 0)
  ∧ (0.19999999999999998 =? 0.19999999999999996)%float = false
  ∧ (_tally [Example3.D1] [Example3.D3] 0).1
    ≠ val_sub (_tally [] [Example3.D2; Example3.D3] 0).1
              (_tally [] [Example3.D2; Example3.D1] 0).1.
Proof.
  cbv zeta. split_and!; try reflexivity.
  - exists 0%Z. split; reflexivity.
  - vm_compute. intros H. discriminate H.
Qed.

(** C3 (amended). Tallying a concatenation goes on from the tally of the
    first part: the segments of the second part are added to it (plus role)
    or subtracted from it (minus role) one after the other, in order.  Taken
    exactly, this is the sum of the tallies of the two parts, for every
    coordinate of position and velocity; and where [_tally] leaves no
    rounding error in the three tallies, the tally of the concatenation is
    the sum of the tallies of the parts.  [_tally] rounds every addition, and
    in general the rounded results need not agree (see below). *)
Theorem tally_continues_over_concatenation (chainA chainB : list Segment.t)
    (t : float) :
  _tally [] (chainA ++ chainB) t = foldl (tally_plus t) (_tally [] chainA t) chainB
  ∧ _tally (chainA ++ chainB) [] t = foldl (tally_minus t) (_tally chainA [] t) chainB
  ∧ ∀ c,
      Exact.tally c [] (chainA ++ chainB) t
      = (Exact.tally c [] chainA t + Exact.tally c [] chainB t)%Qc
      ∧ Exact.tally c (chainA ++ chainB) [] t
        = (Exact.tally c chainA [] t + Exact.tally c chainB [] t)%Qc
      ∧ (Exact.is_exact c [] (chainA ++ chainB) t →
         Exact.is_exact c [] chainA t → Exact.is_exact c [] chainB t →
         Exact.result c (_tally [] (chainA ++ chainB) t)
         = (Exact.result c (_tally [] chainA t)
            + Exact.result c (_tally [] chainB t))%Qc)
      ∧ (Exact.is_exact c (chainA ++ chainB) [] t →
         Exact.is_exact c chainA [] t → Exact.is_exact c chainB [] t →
         Exact.result c (_tally (chainA ++ chainB) [] t)
         = (Exact.result c (_tally chainA [] t)
            + Exact.result c (_tally chainB [] t))%Qc).
Proof.
  split_and!.
  - apply _tally_app_plus.
  - apply _tally_app_minus.
  - intros c. split_and!.
    + apply exact_tally_app.
    + apply exact_tally_app.
    + apply is_exact_app.
    + apply is_exact_app.
Qed.

(** C3, counterexample.  With one segment contributing 0.1, then two
    contributing 0.2 and 0.3: the tally of the three is 0.6000000000000001,
    the sum of the tally of the first and the tally of the other two is 0.6;
    and so, negated, in the minus role. *)
Lemma tally_of_concatenation_is_not_the_sum :
  (_tally [] ([Example3.D1] ++ [Example3.D2; Example3.D3]) 0).1
  = PyArray (V3 0.6000000000000001 0 0)
  ∧ val_add (_tally [] [Example3.D1] 0).1 (_tally [] [Example3.D2; Example3.D3] 0).1
    = PyArray (V3 0.6 0 0)
  ∧ (_tally ([Example3.D1] ++ [Example3.D2; Example3.D3]) [] 0).1
    = PyArray (V3 (-0.6000000000000001) 0 0)
  ∧ val_add (_tally [Example3.D1] [] 0).1 (_tally [Example3.D2; Example3.D3] [] 0).1
    = PyArray (V3 (-0.6) 0 0)
  ∧ (0.6000000000000001 =? 0.6)%float = false
  ∧ _tally [] ([Example3.D1] ++ [Example3.D2; Example3.D3]) 0
    ≠ (val_add (_tally [] [Example3.D1] 0).1 (_tally [] [Example3.D2; Example3.D3] 0).1,
       val_add (_tally [] [Example3.D1] 0).2 (_tally [] [Example3.D2; Example3.D3] 0).2).
Proof.
  split_and!; try reflexivity.
  vm_compute. intros H. discriminate H.
Qed.

(** C4 (amended). Chain resolution has no bound and no cycle check.  For every
    segment collection and body, either no cycle can be reached from the body,
    and then the walk stops within [|segments|] lookups (one more test of the
    loop condition), at an identifier that has no segment -- which need not be
    the root 0 -- and [Body.at] returns; or a cycle can be reached, and then
    the walk is still running whatever the number of steps, and [Body.at]
    neither returns nor raises. *)
Theorem chain_resolution_stops_or_cycles (st : state) (self : Body.t) (jd : float) :
  let segments := items_of (heap st) (Body.segments self) in
  let d := segment_dict segments in
  let code := Body.code self in
  (¬ cycle_reachable d code
   ∧ ∃ walk, _center (S (length segments)) code d = Some walk
       ∧ (length walk ≤ length segments)%nat
       ∧ d !! walk_end code walk = None
       ∧ (Body.at_ (S (length segments)) self jd st).1
         = Ok (new_position Barycentric
                 (_tally [] (reverse walk) jd).1 (_tally [] (reverse walk) jd).2 jd))
  ∨ (cycle_reachable d code
     ∧ (∀ fuel, _center fuel code d = None)
     ∧ never_finishes (λ fuel, Body.at_ fuel self jd) st).
Proof.
  intros segments d code.
  destruct (_center (S (length segments)) code d) as [walk|] eqn:E.
  - left. split.
    { intros Hcycle. by rewrite (cycle_diverges _ _ Hcycle) in E. }
    exists walk. split_and!; [done| |by eapply _center_end|].
    + etrans; [eapply _center_bounded; eauto using segment_dict_keyed|].
      apply segment_dict_size.
    + rewrite Body_at_run. fold segments d code. unfold full_chain. by rewrite E.
  - right. assert (cycle_reachable d code) as Hcycle.
    { eapply long_walk_cycles; [|done]. pose proof (segment_dict_size segments). unfold d. lia. }
    split_and!; [done|by apply cycle_diverges|].
    intros fuel. rewrite Body_at_run. fold segments d code. unfold full_chain.
    by rewrite (cycle_diverges _ _ Hcycle).
Qed.

(** C4, counterexample.  In the set where 1 hangs from 2 and 2 from 1, a
    cycle is reached from body 1 and [Body.at] never finishes: it raises
    nothing.  In the set whose only segment has center 7 and target 3, the
    chain of body 3 ends at 7, not at the root 0, and [Body.at] returns. *)
Lemma cyclic_set_is_not_rejected :
  cycle_reachable (segment_dict [Example.L1; Example.L2]) 1
  ∧ never_finishes (λ fuel, Body.at_ fuel Example.looping 0) Example.idle
  ∧ _center 2 3 (segment_dict [Example.S7]) = Some [Example.S7]
  ∧ walk_end 3 [Example.S7] = 7%Z
  ∧ (Body.at_ 2 Example.adrift 0 Example.idle).1
    = Ok (new_position Barycentric (PyArray (V3 1 0 0)) (PyArray vzero) 0).
Proof.
  assert (cycle_reachable (segment_dict [Example.L1; Example.L2]) 1) as Hcycle.
  { exists 0%nat, 1%nat, 1%Z. split; reflexivity. }
  split_and!; [done| |reflexivity..].
  intros fuel. rewrite Body_at_run. unfold full_chain.
  change (_center fuel _ _) with (_center fuel 1 (segment_dict [Example.L1; Example.L2])).
  by rewrite (cycle_diverges _ _ Hcycle).
Qed.

(** C5 (the code departs from the claim). A body that has no segment has an
    empty chain, and [observe] reads [center_chain[0]] before it compares
    anything.  From the root itself, whose empty chain ends at the root 0, to
    body 399, whose chain S1, S2 starts at the root 0, [observe] raises
    [IndexError] where the claim has it return a [Solution]; from body 399 to
    a name decoded to 999, which has no segment, it raises [IndexError] where
    the claim has the cannot-observe [ValueError]. *)
Theorem observe_empty_chain_raises_IndexError :
  let d := segment_dict [Example.S1; Example.S2; Example.S1; Example.S2] in
  full_chain 3 0 d = Some []
  ∧ full_chain 3 399 d = Some [Example.S1; Example.S2]
  ∧ (Body.observe 3 Example.barycenter (Body.ABody Example.earth) Example.store).1
    = Raise IndexError
  ∧ full_chain 3 999 (segment_dict [Example.S1; Example.S2]) = Some []
  ∧ (Body.observe 3 Example.earth (Body.AName "pluto") Example.store).1
    = Raise IndexError.
Proof. split_and!; reflexivity. Qed.

(** C6. When none of the ten passes of the light-time loop finds two
    successive estimates within 1e-12 of each other, [Solution.at] raises the
    failed-to-converge [ValueError] after exactly ten re-evaluations of the
    target chain -- one per pass -- and returns no position.  (The loop is
    reached when one of the chains has a segment; a solution built by hand
    from two empty chains has no distance to iterate on.) *)
Theorem divergence_after_ten_passes (C_AUDAY : float) (length_of : vec3 → float)
    (self : Solution.t) (jd : float) (st : state) :
  Solution.has_segment self →
  (∀ k, (k < 10)%nat → Solution.converged C_AUDAY length_of self jd k = false) →
  Solution.at_ C_AUDAY length_of self jd st
  = (Raise failed_to_converge,
     mkState (heap st)
       (log st ++ Solution.solver_trace C_AUDAY length_of self jd 10))
  ∧ length (Solution.solver_trace C_AUDAY length_of self jd 10) = 12%nat.
Proof.
  intros Hseg Hnever. split; [|reflexivity]. rewrite Solution_at_run by done.
  assert (Solution.first_converged C_AUDAY length_of self jd 0 10 = None) as ->; [|done].
  apply first_converged_None. intros i Hi. apply Hnever. lia.
Qed.

Lemma divergence_after_ten_passes_witness :
  Solution.at_ Example.C_AUDAY Example.euclidean Example.oscillating 0 Example.idle
  = (Raise failed_to_converge,
     mkState (heap Example.idle)
       (log Example.idle
        ++ Solution.solver_trace Example.C_AUDAY Example.euclidean
             Example.oscillating 0 10))
  ∧ length (Solution.solver_trace Example.C_AUDAY Example.euclidean
              Example.oscillating 0 10) = 12%nat.
Proof.
  apply divergence_after_ten_passes; [by left|].
  intros k Hk. do 10 (destruct k as [|k]; [vm_compute; reflexivity|]). lia.
Defined.

(** C7 (amended). For a solution whose chains are stationary and not both
    empty, and whose separation [d] gives a light time [d / C_AUDAY] that is
    finite and not below 1e-12, [Solution.at] re-evaluates the target chain
    once, the second pass accepts, and the light time returned is
    [d / C_AUDAY]. *)
Theorem stationary_converges_on_second_pass (C_AUDAY : float) (length_of : vec3 → float)
    (self : Solution.t) (jd : float) (st : state) :
  let c := _tally [] (Solution.center_chain self) jd in
  let t := _tally [] (Solution.target_chain self) jd in
  let d := length_of (broadcast (val_sub t.1 c.1)) in
  let lt := (d / C_AUDAY)%float in
  Solution.has_segment self →
  Solution.stationary self →
  is_finite lt = true →
  (lt <? Solution.tolerance)%float = false →
  Solution.at_ C_AUDAY length_of self jd st
  = (Ok (mkPosition
           (if decide (Solution.center self = 0%Z) then Barycentric else Astrometric)
           (val_sub t.1 c.1) (val_sub t.2 c.2) jd
           (Some lt)
           (Some (mkObserver c.1 c.2 false))),
     mkState (heap st)
       (log st ++ [EvTally [] (Solution.center_chain self) jd;
                   EvTally [] (Solution.target_chain self) jd;
                   EvTally [] (Solution.target_chain self) (jd - lt)])).
Proof.
  intros c t d lt Hseg Hst Hfin Hfar. rewrite Solution_at_run by done.
  assert (Solution.first_converged C_AUDAY length_of self jd 0 10 = Some 1%nat) as ->.
  { change (Solution.first_converged C_AUDAY length_of self jd 0 10) with
      (if Solution.converged C_AUDAY length_of self jd 0 then Some 0%nat
       else if Solution.converged C_AUDAY length_of self jd 1 then Some 1%nat
       else Solution.first_converged C_AUDAY length_of self jd 2 8).
    unfold Solution.converged, Solution.previous_estimate.
    rewrite !estimate_stationary by done.
    change (Solution.separation length_of self jd jd / C_AUDAY)%float with lt.
    rewrite within_tolerance_first by done.
    by rewrite float_sub_diag, within_tolerance_zero. }
  unfold Solution.accepted, Solution.solver_trace, Solution.retries,
    Solution.target_time. simpl seq. simpl map.
  rewrite !estimate_stationary by done.
  change (Solution.separation length_of self jd jd / C_AUDAY)%float with lt.
  rewrite (tally_stationary (Solution.target_chain self) (jd - lt) jd).
  - done.
  - intros s Hs. apply Hst, elem_of_app. by right.
Qed.

Lemma stationary_converges_on_second_pass_witness :
  Solution.at_ Example.C_AUDAY Example.euclidean Example.far_pair 0 Example.idle
  = (Ok (mkPosition Astrometric (PyArray (V3 1 0 0)) (PyArray vzero) 0
           (Some (1 / Example.C_AUDAY)%float)
           (Some (mkObserver (PyArray vzero) (PyArray vzero) false))),
     mkState ∅
       [EvTally [] [Example.origin] 0;
        EvTally [] [Example.far] 0;
        EvTally [] [Example.far] (0 - 1 / Example.C_AUDAY)]).
Proof.
  apply (stationary_converges_on_second_pass Example.C_AUDAY Example.euclidean
           Example.far_pair 0 Example.idle).
  - by left.
  - intros s Hs t1 t2. simpl in Hs.
    apply elem_of_cons in Hs as [->|Hs]; [reflexivity|].
    apply elem_of_cons in Hs as [->|Hs]; [reflexivity|].
    by apply elem_of_nil in Hs.
  - reflexivity.
  - reflexivity.
Defined.

(** C7, counterexample.  A target at rest a hundred-billionth of an AU from
    an observer at rest: the chains are stationary and the separation is
    positive, yet the light time is below 1e-12, the first pass accepts it,
    and the target chain is never evaluated again.  A target at rest 1e200
    AU away: the square of the distance is beyond the largest float, the
    Euclidean length and the light time are infinite, the difference of two
    infinite estimates is a NaN, no test holds, and [Solution.at] raises. *)
Lemma stationary_pair_need_not_take_two_passes :
  Solution.stationary Example.near_pair
  ∧ (0 <? Solution.separation Example.euclidean Example.near_pair 0 0)%float = true
  ∧ log (Solution.at_ Example.C_AUDAY Example.euclidean Example.near_pair 0
           Example.idle).2
    = [EvTally [] [Example.origin] 0; EvTally [] [Example.near] 0]
  ∧ Solution.first_converged Example.C_AUDAY Example.euclidean
      Example.near_pair 0 0 10 = Some 0%nat
  ∧ Solution.stationary Example.remote_pair
  ∧ Solution.estimate Example.C_AUDAY Example.euclidean Example.remote_pair 0 0
    = infinity
  ∧ (Solution.at_ Example.C_AUDAY Example.euclidean Example.remote_pair 0
       Example.idle).1
    = Raise failed_to_converge.
Proof.
  assert (∀ x : Segment.t,
            (∀ t1 t2, Segment.compute x t1 = Segment.compute x t2) →
            Solution.stationary (Solution.mk 1 2 [Example.origin] [x])) as Hst.
  { intros x H s Hs t1 t2. simpl in Hs.
    apply elem_of_cons in Hs as [->|Hs]; [reflexivity|].
    apply elem_of_cons in Hs as [->|Hs]; [apply H|].
    by apply elem_of_nil in Hs. }
  split_and!; try reflexivity; by apply Hst.
Qed.


(** C9 (amended). Chain resolution reports no unknown body.  When the walk
    from a body stops at an identifier other than the root 0 -- one that has
    no segment -- [Body.at] raises nothing: it tallies the segments found up
    to there (none, if the body itself has no segment) and returns the sum as
    a barycentric position. *)
Theorem unresolved_body_is_tallied (fuel : nat) (st : state) (self : Body.t)
    (jd : float) (walk : list Segment.t) :
  let d := segment_dict (items_of (heap st) (Body.segments self)) in
  _center fuel (Body.code self) d = Some walk →
  walk_end (Body.code self) walk ≠ 0%Z →
  d !! walk_end (Body.code self) walk = None
  ∧ Body.at_ fuel self jd st
    = (Ok (new_position Barycentric
             (_tally [] (reverse walk) jd).1 (_tally [] (reverse walk) jd).2 jd),
       mkState (heap st) (log st ++ [EvTally [] (reverse walk) jd])).
Proof.
  intros d Hwalk _. split; [by eapply _center_end|].
  rewrite Body_at_run. fold d. unfold full_chain. by rewrite Hwalk.
Qed.

Lemma unresolved_body_is_tallied_witness :
  segment_dict (items_of (heap Example.store) (Body.segments Example.stranger))
    !! walk_end (Body.code Example.stranger) [] = None
  ∧ Body.at_ 1 Example.stranger 5 Example.store
    = (Ok (new_position Barycentric
             (_tally [] (reverse []) 5).1 (_tally [] (reverse []) 5).2 5),
       mkState (heap Example.store)
         (log Example.store ++ [EvTally [] (reverse []) 5])).
Proof.
  apply (unresolved_body_is_tallied 1 Example.store Example.stranger 5 []);
    [reflexivity | vm_compute; discriminate].
Defined.

(** C9, counterexample.  Body 12345 has no segment among S1 and S2, and
    [Body.at] returns for it the position and velocity that [_tally] starts
    from, the float [0.0]. *)
Lemma unknown_body_returns_zero :
  segment_dict [Example.S1; Example.S2] !! 12345%Z = None
  ∧ (Body.at_ 1 Example.stranger 5 Example.store).1
    = Ok (new_position Barycentric (PyFloat 0) (PyFloat 0) 5).
Proof. split; reflexivity. Qed.

(** C10 (the code departs from the claim). [observe] extends the observer's
    own list in place: [segments = self.segments] names the list and
    [segments += body.segments] appends to it.  With both bodies built from
    one ephemeris, whose list is S1, S2, the call returns a [Solution] and
    leaves the list as S1, S2, S1, S2; a call that raises has extended the
    list as well.  [_connect] builds its collection with [+] and leaves the
    store as it was. *)
Theorem observe_extends_the_observers_list :
  heap Example.store !! 1%positive = Some [Example.S1; Example.S2]
  ∧ (Body.observe 3 Example.earth (Body.ABody Example.emb) Example.store).1
    = Ok (Solution.mk 399 3 [Example.S1; Example.S2] [Example.S1])
  ∧ heap (Body.observe 3 Example.earth (Body.ABody Example.emb) Example.store).2
      !! 1%positive
    = Some [Example.S1; Example.S2; Example.S1; Example.S2]
  ∧ (Body.observe 3 Example.barycenter (Body.ABody Example.earth) Example.store).1
    = Raise IndexError
  ∧ heap (Body.observe 3 Example.barycenter (Body.ABody Example.earth) Example.store).2
      !! 1%positive
    = Some [Example.S1; Example.S2; Example.S1; Example.S2]
  ∧ (_connect 3 Example.earth Example.emb Example.store).2 = Example.store.
Proof. split_and!; reflexivity. Qed.

(** ** Further properties *)

(** X1. [observe] on two bodies that both have a segment: once the operands are
    read and both chains are resolved and not empty, [observe] returns the
    [Solution] holding the two full chains when both start at the root 0, and
    raises the cannot-observe [ValueError] otherwise. *)
Theorem observe_resolved_chains (fuel : nat) (self : Body.t) (body : Body.arg)
    (st st1 : state) (segments : pyseq) (target : Z)
    (c0 t0 : Segment.t) (center_chain target_chain : list Segment.t) :
  let d := segment_dict (items_of (heap st1) segments) in
  observe_operands self body st = (Ok (segments, target), st1) →
  full_chain fuel (Body.code self) d = Some (c0 :: center_chain) →
  full_chain fuel target d = Some (t0 :: target_chain) →
  Body.observe fuel self body st
  = (if bool_decide (Segment.center c0 = 0%Z ∧ Segment.center t0 = 0%Z)
     then Ok (Solution.mk (Body.code self) target (c0 :: center_chain)
                (t0 :: target_chain))
     else Raise cannot_observe, st1).
Proof.
  intros d Hop Hc Ht. rewrite observe_unfold.
  erewrite bind_Ok by exact Hop. by apply observe_chains_rooted.
Qed.

Lemma observe_resolved_chains_witness :
  Body.observe 3 Example.earth_tuple (Body.ABody Example.emb_tuple) Example.idle
  = (if bool_decide (Segment.center Example.S1 = 0%Z ∧ Segment.center Example.S1 = 0%Z)
     then Ok (Solution.mk (Body.code Example.earth_tuple) 3
                (Example.S1 :: [Example.S2]) (Example.S1 :: []))
     else Raise cannot_observe, Example.idle).
Proof.
  apply (observe_resolved_chains 3 Example.earth_tuple (Body.ABody Example.emb_tuple)
           Example.idle Example.idle
           (PyTuple [Example.S1; Example.S2; Example.S1; Example.S2]));
    reflexivity.
Defined.

(** X2. Every query but [observe] on a [Body] leaves the store as it was, and so
    does [observe] when it is given a name, or when the observer's segments
    are a tuple. *)
Theorem queries_preserve_heap :
  (∀ fuel self jd, preserves_heap (Body.at_ fuel self jd))
  ∧ (∀ fuel body1 body2, preserves_heap (_connect fuel body1 body2))
  ∧ (∀ fuel self body, preserves_heap (geometry_of fuel self body))
  ∧ (∀ self jd, preserves_heap (Geometry.at_ self jd))
  ∧ (∀ C_AUDAY length_of self jd,
       preserves_heap (Solution.at_ C_AUDAY length_of self jd))
  ∧ (∀ fuel self name, preserves_heap (Body.observe fuel self (Body.AName name)))
  ∧ (∀ fuel self body items,
       Body.segments self = PyTuple items →
       preserves_heap (Body.observe fuel self (Body.ABody body))).
Proof.
  split_and!.
  - intros fuel self jd st. rewrite Body_at_run. by destruct (full_chain _ _ _).
  - apply preserves_heap_connect.
  - intros fuel self body. unfold geometry_of.
    apply preserves_heap_bind; [apply preserves_heap_connect|].
    intros [? ?]. apply preserves_heap_ret.
  - intros self jd. unfold Geometry.at_.
    apply preserves_heap_bind; [apply preserves_heap_tallyM|].
    intros [? ?]. apply preserves_heap_ret.
  - intros C_AUDAY length_of self jd st.
    destruct (has_segment_dec self) as [Hseg|[Hc Ht]].
    + rewrite Solution_at_run by done.
      by destruct (Solution.first_converged _ _ _ _ _ _).
    + by rewrite Solution_at_empty.
  - intros fuel self name. rewrite observe_unfold.
    apply preserves_heap_bind; [apply preserves_heap_ret|].
    intros [? ?]. apply preserves_heap_observe_chains.
  - intros fuel self body items Hitems. rewrite observe_unfold.
    apply preserves_heap_bind.
    + unfold observe_operands. rewrite Hitems.
      apply preserves_heap_bind; [|intros ?; apply preserves_heap_ret].
      destruct (Body.segments body); [apply preserves_heap_raise|apply preserves_heap_ret].
    + intros [? ?]. apply preserves_heap_observe_chains.
Qed.

(** X3. [Solution.at] returns a position only from a pass whose test held: the
    light time it reports is within 1e-12 of the estimate before it. *)
Theorem returned_light_time_has_converged (C_AUDAY : float) (length_of : vec3 → float)
    (self : Solution.t) (jd : float) (st : state) (pos : Position) :
  (Solution.at_ C_AUDAY length_of self jd st).1 = Ok pos →
  ∃ k, (k < 10)%nat
    ∧ Solution.converged C_AUDAY length_of self jd k = true
    ∧ lighttime pos = Some (Solution.estimate C_AUDAY length_of self jd k).
Proof.
  destruct (has_segment_dec self) as [Hseg|[Hc Ht]];
    [|by rewrite Solution_at_empty].
  rewrite Solution_at_run by done.
  destruct (Solution.first_converged C_AUDAY length_of self jd 0 10) as [j|] eqn:Ej;
    [|done].
  apply first_converged_bounds in Ej as (Hj & Hconv & _).
  intros [= <-]. exists j. split_and!; [lia|done..].
Qed.

Lemma returned_light_time_has_converged_witness :
  ∃ k, (k < 10)%nat
    ∧ Solution.converged Example.C_AUDAY Example.euclidean Example.far_pair 0 k = true
    ∧ lighttime (mkPosition Astrometric (PyArray (V3 1 0 0)) (PyArray vzero) 0
                   (Some (1 / Example.C_AUDAY)%float)
                   (Some (mkObserver (PyArray vzero) (PyArray vzero) false)))
      = Some (Solution.estimate Example.C_AUDAY Example.euclidean Example.far_pair 0 k).
Proof.
  apply (returned_light_time_has_converged Example.C_AUDAY Example.euclidean
           Example.far_pair 0 Example.idle).
  vm_compute. reflexivity.
Defined.

(** * More of the module

    The lemmas and properties below cover [geometry_of] and [Geometry.at],
    the registry that [Body.at], [_connect] and [observe] build, and more of
    [_center], [_tally], [Body.at], [observe] and [Solution.at].  Two parts
    of the module are not embedded: [Body.topos], which builds an object of
    the class [Topos] of [toposlib] and uses it as a code, and the two
    [__str__] methods, which print the function held by a segment. *)

(** X4. The registry keeps, for each target, the last segment of the
    collection that has this target; a code has no entry exactly when no
    segment of the collection has it as target. *)
Theorem registry_keeps_last_segment (segments : list Segment.t) (k : Z) :
  segment_dict segments !! k = last (with_target k segments)
  ∧ (segment_dict segments !! k = None
     ↔ ∀ s, s ∈ segments → Segment.target s ≠ k).
Proof.
  split; [apply segment_dict_lookup|].
  rewrite segment_dict_lookup, last_None. unfold with_target. split.
  - intros Hnil s Hs Heq.
    assert (s ∈ filter (λ s, Segment.target s = k) segments) as Hin
      by by apply list_elem_of_filter.
    rewrite Hnil in Hin. by apply elem_of_nil in Hin.
  - intros Hno. destruct (filter _ segments) as [|s f] eqn:E; [done|].
    assert (s ∈ filter (λ s, Segment.target s = k) segments) as Hin
      by (rewrite E; left).
    apply list_elem_of_filter in Hin as [Heq Hin]. by destruct (Hno s).
Qed.

(** X5. The registry of two collections put one after the other is the
    registry of the second completed by that of the first: where both have a
    segment for a target, the second collection's segment is the one kept.
    Putting a collection after itself gives the registry of the collection. *)
Theorem merged_registry_prefers_second (xs ys : list Segment.t) :
  segment_dict (xs ++ ys) = segment_dict ys ∪ segment_dict xs
  ∧ (∀ k s, segment_dict ys !! k = Some s → segment_dict (xs ++ ys) !! k = Some s)
  ∧ (∀ k, segment_dict ys !! k = None →
          segment_dict (xs ++ ys) !! k = segment_dict xs !! k)
  ∧ segment_dict (xs ++ xs) = segment_dict xs.
Proof.
  split_and!.
  - apply segment_dict_app.
  - intros k s H. rewrite segment_dict_app, lookup_union, H. by destruct (segment_dict xs !! k).
  - intros k H. rewrite segment_dict_app, lookup_union, H. by destruct (segment_dict xs !! k).
  - apply segment_dict_twice.
Qed.

(** X6. A chain that [_center] resolves is a path from a root to the body:
    each segment's center is the target of the segment before it, the last
    segment's target is the body, the first segment's center has no segment,
    every segment is the registry's entry for its target and comes from the
    collection, no target occurs twice, and the chain is empty exactly when
    the body has no segment. *)
Theorem chain_is_a_path (fuel : nat) (segments : list Segment.t) (code : Z)
    (chain : list Segment.t) :
  full_chain fuel code (segment_dict segments) = Some chain →
  linked chain
  ∧ (∀ s, last chain = Some s → Segment.target s = code)
  ∧ (∀ s, head chain = Some s → segment_dict segments !! Segment.center s = None)
  ∧ (∀ s, s ∈ chain →
          s ∈ segments ∧ segment_dict segments !! Segment.target s = Some s)
  ∧ NoDup (Segment.target <$> chain)
  ∧ (chain = [] ↔ segment_dict segments !! code = None).
Proof.
  intros H. pose proof (segment_dict_keyed segments) as Hk. split_and!.
  - by eapply full_chain_linked.
  - intros s. by eapply full_chain_last.
  - intros s. by eapply full_chain_root.
  - intros s Hs. unfold full_chain in H.
    destruct (_center fuel code _) as [walk|] eqn:E; simplify_eq/=.
    rewrite elem_of_reverse in Hs.
    pose proof (_center_elem _ _ _ _ _ Hk E Hs) as Hd.
    split; [by eapply segment_dict_elem|done].
  - unfold full_chain in H.
    destruct (_center fuel code _) as [walk|] eqn:E; simplify_eq/=.
    rewrite fmap_reverse, reverse_Permutation. by eapply _center_targets_NoDup.
  - split.
    + intros ->. by apply full_chain_nil in H as [? _].
    + intros Hnone. destruct fuel as [|fuel]; [done|].
      unfold full_chain in H. simpl in H. rewrite Hnone in H. by simplify_eq/=.
Qed.

Lemma chain_is_a_path_witness :
  linked [Example.S1; Example.S2]
  ∧ (∀ s, last [Example.S1; Example.S2] = Some s → Segment.target s = 399%Z)
  ∧ (∀ s, head [Example.S1; Example.S2] = Some s →
          segment_dict [Example.S1; Example.S2] !! Segment.center s = None)
  ∧ (∀ s, s ∈ [Example.S1; Example.S2] →
          s ∈ [Example.S1; Example.S2]
          ∧ segment_dict [Example.S1; Example.S2] !! Segment.target s = Some s)
  ∧ NoDup (Segment.target <$> [Example.S1; Example.S2])
  ∧ ([Example.S1; Example.S2] = []
     ↔ segment_dict [Example.S1; Example.S2] !! 399%Z = None).
Proof. apply (chain_is_a_path 3). reflexivity. Defined.

(** X7. [Body.at] of a body that has a segment is [Body.at] of the segment's
    center, one loop test earlier, plus what the segment computes: position
    and velocity add up along the chain, the segment of the body last. *)
Theorem body_at_adds_parent (fuel : nat) (st : state) (self parent : Body.t)
    (jd : float) (s : Segment.t) (p : Position) :
  Body.segments parent = Body.segments self →
  segment_dict (items_of (heap st) (Body.segments self)) !! Body.code self = Some s →
  Body.code parent = Segment.center s →
  (Body.at_ fuel parent jd st).1 = Ok p →
  (Body.at_ (S fuel) self jd st).1
  = Ok (new_position Barycentric
          (val_add (position p) (PyArray (Segment.compute s jd).1))
          (val_add (velocity p) (PyArray (Segment.compute s jd).2)) jd).
Proof.
  intros Hsegs Hs Hcode. rewrite !Body_at_run, Hsegs, Hcode.
  rewrite (full_chain_step _ _ _ _ Hs).
  destruct (full_chain fuel _ _) as [chain|]; [|done]. simpl.
  intros [= <-]. simpl.
  rewrite _tally_app_plus. cbn [foldl]. by rewrite tally_plus_spec.
Qed.

Lemma body_at_adds_parent_witness :
  (Body.at_ 3 Example.earth 5 Example.store).1
  = Ok (new_position Barycentric
          (val_add (PyArray (V3 5 0 0)) (PyArray (Segment.compute Example.S2 5).1))
          (val_add (PyArray (V3 1 0 0)) (PyArray (Segment.compute Example.S2 5).2)) 5).
Proof.
  apply (body_at_adds_parent 2 Example.store Example.earth Example.emb 5
           Example.S2
           (new_position Barycentric (PyArray (V3 5 0 0)) (PyArray (V3 1 0 0)) 5));
    reflexivity.
Defined.

(** X8. [_tally] returns the float [0.0] for position and velocity when both
    chains are empty, and a pair of arrays as soon as one of the chains has a
    segment. *)
Theorem tally_returns_floats_only_for_empty_chains
    (minus_chain plus_chain : list Segment.t) (jd : float) :
  match minus_chain, plus_chain with
  | [], [] => _tally minus_chain plus_chain jd = (PyFloat 0, PyFloat 0)
  | _, _ =>
      is_array (_tally minus_chain plus_chain jd).1
      ∧ is_array (_tally minus_chain plus_chain jd).2
  end.
Proof.
  destruct minus_chain as [|m minus_chain].
  - destruct plus_chain as [|p plus_chain]; [done|]. by apply _tally_is_array.
  - assert (is_array (foldl (tally_minus jd) (PyFloat 0, PyFloat 0) (m :: minus_chain)).1
            ∧ is_array (foldl (tally_minus jd) (PyFloat 0, PyFloat 0) (m :: minus_chain)).2)
      as Hm.
    { simpl. apply foldl_tally_minus_is_array. by rewrite tally_minus_spec. }
    pose proof (foldl_tally_plus_is_array jd plus_chain _ Hm) as Hp.
    by destruct plus_chain.
Qed.

(** X9. A solution that [observe] returns has a segment in each chain, so
    the only exception [self.observe(body).at(t)] raises once [observe] has
    returned is the failed-to-converge [ValueError], after ten failed
    tests. *)
Theorem observed_solution_raises_only_divergence (fuel : nat) (C_AUDAY : float)
    (length_of : vec3 → float) (self : Body.t) (body : Body.arg) (st st' : state)
    (jd : float) (sol : Solution.t) (e : exn) :
  (Body.observe fuel self body st).1 = Ok sol →
  (Solution.at_ C_AUDAY length_of sol jd st').1 = Raise e →
  Solution.center_chain sol ≠ [] ∧ Solution.target_chain sol ≠ []
  ∧ e = failed_to_converge
  ∧ ∀ k, (k < 10)%nat → Solution.converged C_AUDAY length_of sol jd k = false.
Proof.
  intros [Hc Ht]%observe_Ok_nonempty Hat.
  rewrite Solution_at_run in Hat by by left.
  destruct (Solution.first_converged C_AUDAY length_of sol jd 0 10) as [j|] eqn:Ej;
    [done|].
  split_and!; [done..| |].
  - by injection Hat as <-.
  - intros k Hk. apply (proj1 (first_converged_None _ _ _ _ 0 10) Ej). lia.
Qed.

Lemma observed_solution_raises_only_divergence_witness :
  Solution.center_chain Example.oscillating ≠ []
  ∧ Solution.target_chain Example.oscillating ≠ []
  ∧ failed_to_converge = failed_to_converge
  ∧ ∀ k, (k < 10)%nat →
         Solution.converged Example.C_AUDAY Example.euclidean
           Example.oscillating 0 k = false.
Proof.
  apply (observed_solution_raises_only_divergence 2 Example.C_AUDAY Example.euclidean
           Example2.watcher (Body.AName "flicker") Example.idle Example.idle 0);
    reflexivity.
Defined.



(** X11. The geometry of a body that has a segment, relative to itself, has
    two empty chains, and [Geometry.at] gives it, at every time, the position
    and velocity that [_tally] starts from: the float [0.0]. *)
Theorem geometry_of_itself_is_zero (fuel : nat) (st st' : state) (self : Body.t)
    (jd : float) (s : Segment.t) (chain : list Segment.t) :
  full_chain fuel (Body.code self)
    (segment_dict (items_of (heap st) (Body.segments self))) = Some (s :: chain) →
  geometry_of fuel self (Body.ABody self) st
  = (Ok (Geometry.mk (Body.code self) (Body.code self) [] []), st)
  ∧ (Geometry.at_ (Geometry.mk (Body.code self) (Body.code self) [] []) jd st').1
    = Ok (new_position
            (if decide (Body.code self = 0%Z) then Barycentric else ICRS)
            (PyFloat 0) (PyFloat 0) jd).
Proof.
  intros H. split; [|by rewrite Geometry_at_run].
  pose proof (py_add_same (Body.segments self) st) as Hadd.
  destruct (connect_resolved fuel self self st _ (s :: chain) (s :: chain) Hadd)
    as (shared & restA & restB & EA & EB & Hconn & Hno);
    [by rewrite segment_dict_twice..|by exists (Segment.center s)|].
  assert (restA = restB) as <-.
  { rewrite EA in EB. by apply (inj (app shared)) in EB. }
  destruct restA as [|x restA]; [|by destruct (Hno 0%nat x x)].
  unfold geometry_of. by erewrite bind_Ok by exact Hconn.
Qed.

Lemma geometry_of_itself_is_zero_witness :
  geometry_of 3 Example.earth (Body.ABody Example.earth) Example.store
  = (Ok (Geometry.mk (Body.code Example.earth) (Body.code Example.earth) [] []),
     Example.store)
  ∧ (Geometry.at_
       (Geometry.mk (Body.code Example.earth) (Body.code Example.earth) [] [])
       5 Example.idle).1
    = Ok (new_position
            (if decide (Body.code Example.earth = 0%Z) then Barycentric else ICRS)
            (PyFloat 0) (PyFloat 0) 5).
Proof.
  apply (geometry_of_itself_is_zero 3 Example.store Example.idle Example.earth
           5 Example.S1 [Example.S2]).
  reflexivity.
Defined.

(** X12. The two chains [_connect] returns meet only where they start: when
    neither is empty their first segments have the same center, the nearest
    body the two full chains share; no body is the target of a segment in
    both; and each is still a path. *)
Theorem pruned_chains_meet_only_at_their_start (fuel : nat) (st : state)
    (body1 body2 : Body.t) (every chainA chainB : list Segment.t) :
  (py_add (Body.segments body1) (Body.segments body2) st).1 = Ok every →
  full_chain fuel (Body.code body1) (segment_dict every) = Some chainA →
  full_chain fuel (Body.code body2) (segment_dict every) = Some chainB →
  same_root chainA chainB →
  ∃ pruned_center pruned_target,
    _connect fuel body1 body2 st = (Ok (pruned_center, pruned_target), st)
    ∧ (∀ a b, head pruned_center = Some a → head pruned_target = Some b →
              Segment.center a = Segment.center b)
    ∧ (∀ s1 s2, s1 ∈ pruned_center → s2 ∈ pruned_target →
                Segment.target s1 ≠ Segment.target s2)
    ∧ linked pruned_center ∧ linked pruned_target.
Proof.
  intros Hadd HA HB Hroot.
  pose proof (segment_dict_keyed every) as Hk.
  pose proof (full_chain_linked _ Hk _ _ _ HA) as HlA.
  pose proof (full_chain_linked _ Hk _ _ _ HB) as HlB.
  destruct (connect_resolved _ _ _ _ _ _ _ Hadd HA HB Hroot)
    as (shared & restA & restB & EA & EB & Hconn & Hno).
  exists restA, restB. split_and!; [done| | |subst; by eapply linked_app_r..].
  - intros a b Ha Hb.
    destruct restA as [|a' restA]; simplify_eq/=.
    destruct restB as [|b' restB]; simplify_eq/=.
    destruct (last shared) as [x|] eqn:Hlast.
    + apply last_Some in Hlast as [shared' ->].
      rewrite <-!app_assoc in HlA, HlB. simpl in HlA, HlB.
      assert (∀ (y : Segment.t) rest,
                (shared' ++ x :: y :: rest) !! S (length shared') = Some y) as Hnext.
      { intros y rest. rewrite lookup_app_r by lia.
        by replace (S (length shared') - length shared')%nat with 1%nat by lia. }
      transitivity (Segment.target x).
      * apply (HlA (length shared')); [by apply list_lookup_middle|apply Hnext].
      * symmetry.
        apply (HlB (length shared')); [by apply list_lookup_middle|apply Hnext].
    + apply last_None in Hlast as ->. destruct Hroot as (r & HrA & HrB).
      unfold chain_root in *. simplify_eq/=. congruence.
  - intros s1 s2 [i Hi]%list_elem_of_lookup [j Hj]%list_elem_of_lookup Heq.
    assert (chainA !! (length shared + i)%nat = Some s1) as HiA.
    { subst. by rewrite lookup_app_r, Nat.add_comm, Nat.add_sub by lia. }
    assert (chainB !! (length shared + j)%nat = Some s2) as HjB.
    { subst. by rewrite lookup_app_r, Nat.add_comm, Nat.add_sub by lia. }
    pose proof (full_chain_depth _ _ _ _ _ _ Hk HA HiA) as HdA.
    pose proof (full_chain_depth _ _ _ _ _ _ Hk HB HjB) as HdB.
    rewrite Heq in HdA. pose proof (_center_det _ _ _ _ _ _ HdA HdB) as Hw.
    apply (f_equal length) in Hw. simpl in Hw.
    rewrite !length_reverse, !length_take in Hw.
    apply lookup_lt_Some in HiA, HjB.
    assert (i = j) as -> by lia. by destruct (Hno j s1 s2).
Qed.

Lemma pruned_chains_meet_only_at_their_start_witness :
  ∃ pruned_center pruned_target,
    _connect 3 Example2.earth Example2.moon Example.idle
    = (Ok (pruned_center, pruned_target), Example.idle)
    ∧ (∀ a b, head pruned_center = Some a → head pruned_target = Some b →
              Segment.center a = Segment.center b)
    ∧ (∀ s1 s2, s1 ∈ pruned_center → s2 ∈ pruned_target →
                Segment.target s1 ≠ Segment.target s2)
    ∧ linked pruned_center ∧ linked pruned_target.
Proof.
  apply (pruned_chains_meet_only_at_their_start 3 Example.idle Example2.earth
           Example2.moon (Example2.trio ++ Example2.trio)
           [Example.S1; Example.S2] [Example.S1; Example2.S3]);
    [reflexivity | reflexivity | reflexivity |].
  exists 0%Z. split; reflexivity.
Defined.

(** X13. For two bodies that hold one collection, exchanging the two bodies
    exchanges the two chains [_connect] returns. *)
Theorem connect_swaps (fuel : nat) (st : state) (body1 body2 : Body.t)
    (pruned1 pruned2 : list Segment.t) :
  Body.segments body2 = Body.segments body1 →
  (_connect fuel body1 body2 st).1 = Ok (pruned1, pruned2) →
  _connect fuel body2 body1 st = (Ok (pruned2, pruned1), st).
Proof.
  intros Hsegs Hok.
  pose proof (py_add_same (Body.segments body1) st) as Hadd.
  assert ((py_add (Body.segments body1) (Body.segments body2) st).1
          = Ok (items_of (heap st) (Body.segments body1)
                ++ items_of (heap st) (Body.segments body1))) as Hadd12
    by by rewrite Hsegs.
  assert ((py_add (Body.segments body2) (Body.segments body1) st).1
          = Ok (items_of (heap st) (Body.segments body1)
                ++ items_of (heap st) (Body.segments body1))) as Hadd21
    by by rewrite Hsegs.
  destruct (connect_Ok_inv _ _ _ _ _ _ Hadd12 Hok) as (chainA & chainB & HA & HB & _).
  rewrite (connect_run _ _ _ _ _ _ _ Hadd12 HA HB) in Hok.
  rewrite (connect_run _ _ _ _ _ _ _ Hadd21 HB HA).
  destruct chainA as [|a chainA]; [done|]. destruct chainB as [|b chainB]; [done|].
  simpl in Hok. rewrite (count_matches_sym (b :: chainB)).
  destruct (decide (Segment.center a = Segment.center b)) as [Heq|Hne]; [|done].
  rewrite decide_True by done. by simplify_eq/=.
Qed.

Lemma connect_swaps_witness :
  _connect 3 Example2.moon Example2.earth Example.idle
  = (Ok ([Example2.S3], [Example.S2]), Example.idle).
Proof.
  apply (connect_swaps 3 Example.idle Example2.earth Example2.moon); reflexivity.
Defined.



(** X15. [geometry_of], when the two collections merge and both chains
    resolve to chains whose first segments have different centers, raises
    the cannot-trace [ValueError] and leaves the store as it was. *)
Theorem geometry_of_different_roots (fuel : nat) (st : state) (self body : Body.t)
    (every chainA chainB : list Segment.t) (a b : Segment.t) :
  (py_add (Body.segments self) (Body.segments body) st).1 = Ok every →
  full_chain fuel (Body.code self) (segment_dict every) = Some chainA →
  full_chain fuel (Body.code body) (segment_dict every) = Some chainB →
  head chainA = Some a → head chainB = Some b →
  Segment.center a ≠ Segment.center b →
  geometry_of fuel self (Body.ABody body) st = (Raise no_common_center, st).
Proof.
  intros Hadd HA HB Ha Hb Hne. unfold geometry_of. erewrite bind_Raise; [done|].
  rewrite (connect_run _ _ _ _ _ _ _ Hadd HA HB).
  destruct chainA, chainB; simplify_eq/=. by rewrite decide_False.
Qed.

Lemma geometry_of_different_roots_witness :
  geometry_of 3 Example2.earth (Body.ABody Example2.adrift) Example.idle
  = (Raise no_common_center, Example.idle).
Proof.
  apply (geometry_of_different_roots 3 Example.idle Example2.earth Example2.adrift
           (Example2.trio ++ [Example2.S8]) [Example.S1; Example.S2] [Example2.S8]
           Example.S1 Example2.S8);
    [reflexivity | reflexivity | reflexivity | reflexivity | reflexivity
    | vm_compute; discriminate].
Defined.

(** X16. [observe] given a [Body], when the observer's segments are a list:
    whatever the call does afterwards -- return, raise or run on -- the list
    has been extended in place by the segments of the other body, every other
    list of the store is as before, and nothing was tallied.  When the other
    body holds the same list, its length has doubled. *)
Theorem observe_extends_list (fuel : nat) (self body : Body.t) (st : state)
    (l : positive) :
  Body.segments self = PyList l →
  let st' := (Body.observe fuel self (Body.ABody body) st).2 in
  heap st' = <[l := items_of (heap st) (PyList l)
                     ++ items_of (heap st) (Body.segments body)]> (heap st)
  ∧ (∀ l', l' ≠ l → heap st' !! l' = heap st !! l')
  ∧ log st' = log st
  ∧ (Body.segments body = PyList l →
     length (items_of (heap st') (PyList l))
     = (2 * length (items_of (heap st) (PyList l)))%nat).
Proof.
  intros Hl st'.
  assert (heap st' = <[l := items_of (heap st) (PyList l)
                       ++ items_of (heap st) (Body.segments body)]> (heap st)
          ∧ log st' = log st) as [Hheap Hlog].
  { unfold st'. rewrite observe_unfold. unfold mbind, M_bind.
    rewrite (observe_operands_list _ _ _ _ Hl).
    pose proof (preserves_heap_observe_chains fuel self (PyList l) (Body.code body)) as Hp.
    pose proof (observe_chains_log fuel self (PyList l) (Body.code body)) as Hg.
    set (st1 := mkState _ _) in *. specialize (Hp st1). specialize (Hg st1).
    by destruct (observe_chains _ _ _ _ st1) as [[?|?|] ?]. }
  split_and!; [done| |done|].
  - intros l' Hne. by rewrite Hheap, lookup_insert_ne.
  - intros Hbody. rewrite Hheap, Hbody. simpl. rewrite lookup_insert_eq. simpl.
    rewrite length_app. lia.
Qed.

Lemma observe_extends_list_witness :
  let st' := (Body.observe 3 Example.earth (Body.ABody Example.emb) Example.store).2 in
  heap st' = <[1%positive := items_of (heap Example.store) (PyList 1)
                     ++ items_of (heap Example.store) (Body.segments Example.emb)]>
               (heap Example.store)
  ∧ (∀ l', l' ≠ 1%positive → heap st' !! l' = heap Example.store !! l')
  ∧ log st' = log Example.store
  ∧ (Body.segments Example.emb = PyList 1 →
     length (items_of (heap st') (PyList 1))
     = (2 * length (items_of (heap Example.store) (PyList 1)))%nat).
Proof. apply (observe_extends_list 3 Example.earth Example.emb). reflexivity. Defined.

(** X17. [observe] between two bodies that hold one list: although the list
    is extended by itself first, the chains are those of the registry of the
    list as it was.  When both chains are resolved and not empty, [observe]
    returns the [Solution] that holds them if both start at the root 0, and
    raises the cannot-observe [ValueError] otherwise. *)
Theorem observe_within_one_list (fuel : nat) (self body : Body.t) (st : state)
    (l : positive) (c0 t0 : Segment.t) (center_chain target_chain : list Segment.t) :
  let d := segment_dict (items_of (heap st) (PyList l)) in
  Body.segments self = PyList l → Body.segments body = PyList l →
  full_chain fuel (Body.code self) d = Some (c0 :: center_chain) →
  full_chain fuel (Body.code body) d = Some (t0 :: target_chain) →
  (Body.observe fuel self (Body.ABody body) st).1
  = if bool_decide (Segment.center c0 = 0%Z ∧ Segment.center t0 = 0%Z)
    then Ok (Solution.mk (Body.code self) (Body.code body)
               (c0 :: center_chain) (t0 :: target_chain))
    else Raise cannot_observe.
Proof.
  intros d Hself Hbody Hc Ht. rewrite observe_unfold.
  erewrite bind_Ok by by apply observe_operands_list.
  rewrite Hbody.
  erewrite observe_chains_rooted; [done|..]; simpl;
    rewrite lookup_insert_eq; simpl; by rewrite segment_dict_twice.
Qed.

Lemma observe_within_one_list_witness :
  (Body.observe 3 Example.earth (Body.ABody Example.emb) Example.store).1
  = if bool_decide (Segment.center Example.S1 = 0%Z ∧ Segment.center Example.S1 = 0%Z)
    then Ok (Solution.mk (Body.code Example.earth) (Body.code Example.emb)
               (Example.S1 :: [Example.S2]) (Example.S1 :: []))
    else Raise cannot_observe.
Proof.
  apply (observe_within_one_list 3 Example.earth Example.emb Example.store 1);
    reflexivity.
Defined.

(** X18. The position [Solution.at] returns is an array, and the light time
    attached to it is the length of that position divided by [C_AUDAY]; the
    position carries the nominal time, and its observer is marked as not
    geocentric. *)
Theorem light_time_matches_returned_position (C_AUDAY : float)
    (length_of : vec3 → float) (self : Solution.t) (t : float) (st : state)
    (pos : Position) :
  (Solution.at_ C_AUDAY length_of self t st).1 = Ok pos →
  is_array (position pos)
  ∧ lighttime pos = Some (length_of (broadcast (position pos)) / C_AUDAY)%float
  ∧ jd pos = t
  ∧ geocentric <$> observer pos = Some false.
Proof.
  destruct (has_segment_dec self) as [Hseg|[Hc Ht]];
    [|by rewrite Solution_at_empty].
  rewrite Solution_at_run by done.
  destruct (Solution.first_converged C_AUDAY length_of self t 0 10) as [j|]; [|done].
  intros [= <-]. split_and!; [| |done..].
  - unfold Solution.accepted. simpl. apply val_sub_is_array.
    destruct Hseg as [Hc|Ht]; [right|left]; by apply _tally_is_array.
  - unfold Solution.accepted. simpl. by rewrite estimate_separation.
Qed.

Lemma light_time_matches_returned_position_witness :
  let pos := mkPosition Astrometric (PyArray (V3 1 0 0)) (PyArray vzero) 0
               (Some (1 / Example.C_AUDAY)%float)
               (Some (mkObserver (PyArray vzero) (PyArray vzero) false)) in
  is_array (position pos)
  ∧ lighttime pos
    = Some (Example.euclidean (broadcast (position pos)) / Example.C_AUDAY)%float
  ∧ jd pos = 0%float
  ∧ geocentric <$> observer pos = Some false.
Proof.
  apply (light_time_matches_returned_position Example.C_AUDAY Example.euclidean
           Example.far_pair 0 Example.idle).
  vm_compute. reflexivity.
Defined.

(** X19. For stationary chains, not both empty, whose separation [d] gives a
    finite light time [d / C_AUDAY], [Solution.at] never fails to converge:
    it returns in the first or the second pass, after at most one
    re-evaluation of the target chain, with the geometric position and
    velocity -- the target's tally less the center's at the nominal time --
    and the light time [d / C_AUDAY]. *)
Theorem stationary_never_diverges (C_AUDAY : float) (length_of : vec3 → float)
    (self : Solution.t) (jd : float) (st : state) :
  let c := _tally [] (Solution.center_chain self) jd in
  let t := _tally [] (Solution.target_chain self) jd in
  let d := length_of (broadcast (val_sub t.1 c.1)) in
  let lt := (d / C_AUDAY)%float in
  Solution.has_segment self →
  Solution.stationary self →
  is_finite lt = true →
  ∃ n, (n ≤ 1)%nat
    ∧ Solution.at_ C_AUDAY length_of self jd st
      = (Ok (mkPosition
               (if decide (Solution.center self = 0%Z) then Barycentric else Astrometric)
               (val_sub t.1 c.1) (val_sub t.2 c.2) jd
               (Some lt)
               (Some (mkObserver c.1 c.2 false))),
         mkState (heap st)
           (log st ++ EvTally [] (Solution.center_chain self) jd
                   :: EvTally [] (Solution.target_chain self) jd
                   :: replicate n (EvTally [] (Solution.target_chain self)
                                     (jd - lt)))).
Proof.
  intros c t d lt Hseg Hst Hfin. rewrite Solution_at_run by done.
  assert (∀ t', _tally [] (Solution.target_chain self) t' = t) as Htally.
  { intros t'. apply tally_stationary. intros s Hs. apply Hst, elem_of_app. by right. }
  assert (∀ k, Solution.estimate C_AUDAY length_of self jd k = lt) as Hest.
  { intros k. by rewrite estimate_stationary. }
  assert (∀ n, Solution.accepted C_AUDAY length_of self jd n
               = mkPosition
                   (if decide (Solution.center self = 0%Z) then Barycentric else Astrometric)
                   (val_sub t.1 c.1) (val_sub t.2 c.2) jd (Some lt)
                   (Some (mkObserver c.1 c.2 false))) as Hacc.
  { intros n. unfold Solution.accepted. cbv zeta. by rewrite Htally, Hest. }
  change (Solution.first_converged C_AUDAY length_of self jd 0 10) with
    (if Solution.converged C_AUDAY length_of self jd 0 then Some 0%nat
     else if Solution.converged C_AUDAY length_of self jd 1 then Some 1%nat
     else Solution.first_converged C_AUDAY length_of self jd 2 8).
  destruct (Solution.converged C_AUDAY length_of self jd 0).
  - exists 0%nat. split; [lia|]. by rewrite Hacc.
  - assert (Solution.converged C_AUDAY length_of self jd 1 = true) as ->.
    { unfold Solution.converged, Solution.previous_estimate. rewrite !Hest.
      by rewrite float_sub_diag, within_tolerance_zero. }
    exists 1%nat. split; [lia|]. rewrite Hacc.
    unfold Solution.solver_trace, Solution.retries. cbn [map seq replicate].
    by rewrite Hest.
Qed.

Lemma stationary_never_diverges_witness :
  ∃ n, (n ≤ 1)%nat
    ∧ Solution.at_ Example.C_AUDAY Example.euclidean Example.near_pair 0 Example.idle
      = (Ok (mkPosition Astrometric
               (PyArray (V3 1e-11 0 0)) (PyArray vzero) 0
               (Some (Example.euclidean (V3 1e-11 0 0) / Example.C_AUDAY)%float)
               (Some (mkObserver (PyArray vzero) (PyArray vzero) false))),
         mkState ∅
           ([] ++ EvTally [] [Example.origin] 0
               :: EvTally [] [Example.near] 0
               :: replicate n (EvTally [] [Example.near]
                                 (0 - Example.euclidean (V3 1e-11 0 0)
                                      / Example.C_AUDAY)))).
Proof.
  apply (stationary_never_diverges Example.C_AUDAY Example.euclidean
           Example.near_pair 0 Example.idle).
  - by left.
  - intros s Hs t1 t2. simpl in Hs.
    apply elem_of_cons in Hs as [->|Hs]; [reflexivity|].
    apply elem_of_cons in Hs as [->|Hs]; [reflexivity|].
    by apply elem_of_nil in Hs.
  - reflexivity.
Defined.

(** X20. [Solution.at] raises in two cases only.  With two empty chains it
    raises [AttributeError] after its first two tallies: both are the float
    [0.0] and their difference has no length.  With a segment in one of the
    chains it raises the failed-to-converge [ValueError], and only when the
    test failed in each of the ten passes, after twelve tallies. *)
Theorem solution_at_raises_for_two_reasons (C_AUDAY : float)
    (length_of : vec3 → float) (self : Solution.t) (jd : float) (st : state)
    (e : exn) :
  (Solution.at_ C_AUDAY length_of self jd st).1 = Raise e →
  (e = AttributeError
   ∧ Solution.center_chain self = [] ∧ Solution.target_chain self = []
   ∧ length (log (Solution.at_ C_AUDAY length_of self jd st).2)
     = (length (log st) + 2)%nat)
  ∨ (e = failed_to_converge
     ∧ Solution.has_segment self
     ∧ (∀ k, (k < 10)%nat → Solution.converged C_AUDAY length_of self jd k = false)
     ∧ length (log (Solution.at_ C_AUDAY length_of self jd st).2)
       = (length (log st) + 12)%nat).
Proof.
  destruct (has_segment_dec self) as [Hseg|[Hc Ht]].
  - rewrite Solution_at_run by done.
    destruct (Solution.first_converged C_AUDAY length_of self jd 0 10) as [j|] eqn:Ej;
      [done|].
    intros [= <-]. right. split_and!; [done..| |].
    + intros k Hk. apply (proj1 (first_converged_None _ _ _ _ 0 10) Ej). lia.
    + simpl. rewrite length_app. reflexivity.
  - rewrite Solution_at_empty by done. intros [= <-]. left.
    split_and!; [done..|]. simpl. rewrite length_app. reflexivity.
Qed.

Lemma solution_at_raises_for_two_reasons_witness :
  (AttributeError = AttributeError
   ∧ Solution.center_chain Example.empty_pair = []
   ∧ Solution.target_chain Example.empty_pair = []
   ∧ length (log (Solution.at_ Example.C_AUDAY Example.euclidean
                    Example.empty_pair 0 Example.idle).2)
     = (length (log Example.idle) + 2)%nat)
  ∨ (AttributeError = failed_to_converge
     ∧ Solution.has_segment Example.empty_pair
     ∧ (∀ k, (k < 10)%nat →
             Solution.converged Example.C_AUDAY Example.euclidean
               Example.empty_pair 0 k = false)
     ∧ length (log (Solution.at_ Example.C_AUDAY Example.euclidean
                      Example.empty_pair 0 Example.idle).2)
       = (length (log Example.idle) + 12)%nat).
Proof.
  apply (solution_at_raises_for_two_reasons Example.C_AUDAY Example.euclidean
           Example.empty_pair 0 Example.idle).
  reflexivity.
Defined.

(** X21. When one of the chains has a segment and the first light-time
    estimate [d / C_AUDAY], as the code computes it, passes the test
    [-1e-12 < d / C_AUDAY < 1e-12], [Solution.at] accepts it in the first
    pass: the target chain is never evaluated at a delayed time, and the
    result is the geometric position and velocity at the nominal time. *)
Theorem small_light_time_returns_geometric (C_AUDAY : float)
    (length_of : vec3 → float) (self : Solution.t) (jd : float) (st : state) :
  let c := _tally [] (Solution.center_chain self) jd in
  let t := _tally [] (Solution.target_chain self) jd in
  let d := length_of (broadcast (val_sub t.1 c.1)) in
  let lt := (d / C_AUDAY)%float in
  Solution.has_segment self →
  (- Solution.tolerance <? lt)%float = true →
  (lt <? Solution.tolerance)%float = true →
  Solution.at_ C_AUDAY length_of self jd st
  = (Ok (mkPosition
           (if decide (Solution.center self = 0%Z) then Barycentric else Astrometric)
           (val_sub t.1 c.1) (val_sub t.2 c.2) jd
           (Some lt)
           (Some (mkObserver c.1 c.2 false))),
     mkState (heap st)
       (log st ++ [EvTally [] (Solution.center_chain self) jd;
                   EvTally [] (Solution.target_chain self) jd])).
Proof.
  intros c t d lt Hseg Hlo Hhi. rewrite Solution_at_run by done.
  assert (Solution.converged C_AUDAY length_of self jd 0 = true) as Hc.
  { unfold Solution.converged, Solution.previous_estimate.
    change (Solution.estimate C_AUDAY length_of self jd 0) with lt.
    rewrite float_sub_0_r. unfold Solution.within_tolerance. by rewrite Hlo, Hhi. }
  change (Solution.first_converged C_AUDAY length_of self jd 0 10) with
    (if Solution.converged C_AUDAY length_of self jd 0 then Some 0%nat
     else Solution.first_converged C_AUDAY length_of self jd 1 9).
  by rewrite Hc.
Qed.

Lemma small_light_time_returns_geometric_witness :
  Solution.at_ Example.C_AUDAY Example.euclidean Example.near_pair 0 Example.idle
  = (Ok (mkPosition Astrometric
           (PyArray (V3 1e-11 0 0)) (PyArray vzero) 0
           (Some (Example.euclidean (V3 1e-11 0 0) / Example.C_AUDAY)%float)
           (Some (mkObserver (PyArray vzero) (PyArray vzero) false))),
     mkState ∅ [EvTally [] [Example.origin] 0; EvTally [] [Example.near] 0]).
Proof.
  apply (small_light_time_returns_geometric Example.C_AUDAY Example.euclidean
           Example.near_pair 0 Example.idle); [by left|reflexivity..].
Defined.

(** The bounds of the test are strict, and the upper one is the float
    [1e-12]: a first estimate equal to it is not accepted, and the target
    chain is evaluated once more. *)
Lemma light_time_equal_to_tolerance_is_not_accepted :
  Solution.estimate Example.C_AUDAY Example.euclidean Example.brink_pair 0 0
  = Solution.tolerance
  ∧ Solution.first_converged Example.C_AUDAY Example.euclidean
      Example.brink_pair 0 0 10 = Some 1%nat
  ∧ length (log (Solution.at_ Example.C_AUDAY Example.euclidean Example.brink_pair 0
                   Example.idle).2) = 3%nat.
Proof. split_and!; reflexivity. Qed.

(** X22. The observer attached to an observation is the observer's own
    [Body.at]: for two bodies that hold one collection, when [observe]
    returns a [Solution] and [Solution.at] returns a position, the observer's
    position and velocity in it are those [Body.at] returns for the
    observing body at the nominal time. *)
Theorem observer_is_body_at (fuel : nat) (C_AUDAY : float) (length_of : vec3 → float)
    (self body : Body.t) (st st' : state) (jd : float)
    (sol : Solution.t) (pos p : Position) :
  Body.segments body = Body.segments self →
  (Body.observe fuel self (Body.ABody body) st).1 = Ok sol →
  (Solution.at_ C_AUDAY length_of sol jd st').1 = Ok pos →
  (Body.at_ fuel self jd st).1 = Ok p →
  observer pos = Some (mkObserver (position p) (velocity p) false).
Proof.
  intros Hsegs Hobs Hat Hbody.
  pose proof (observe_Ok_nonempty _ _ _ _ _ Hobs) as [Hne _].
  destruct (observe_operands_same self body st Hsegs) as (segs & st1 & Hop & Hitems).
  rewrite observe_unfold in Hobs. erewrite bind_Ok in Hobs by exact Hop.
  apply observe_chains_Ok_inv in Hobs as (cc & tc & Hcc & _ & ->).
  rewrite Hitems, segment_dict_twice in Hcc.
  rewrite Body_at_run, Hcc in Hbody. simpl in Hbody. injection Hbody as <-.
  rewrite Solution_at_run in Hat by by left.
  destruct (Solution.first_converged _ _ _ _ _ _) as [j|]; [|done].
  by injection Hat as <-.
Qed.

Lemma observer_is_body_at_witness :
  observer (mkPosition Astrometric (PyArray (V3 2 0 0)) (PyArray vzero) 5
              (Some (2 / Example.C_AUDAY)%float)
              (Some (mkObserver (PyArray (V3 1 0 0)) (PyArray vzero) false)))
  = Some (mkObserver
            (position (new_position Barycentric (PyArray (V3 1 0 0)) (PyArray vzero) 5))
            (velocity (new_position Barycentric (PyArray (V3 1 0 0)) (PyArray vzero) 5))
            false).
Proof.
  apply (observer_is_body_at 2 Example.C_AUDAY Example.euclidean
           Example2.here Example2.there Example2.store Example.idle 5
           (Solution.mk 1 2 [Example2.P1] [Example2.P2]));
    [reflexivity | reflexivity | vm_compute; reflexivity | reflexivity].
Defined.

(** X23. Within one list, the extension [observe] makes is not seen by
    [Body.at]: for bodies that all hold the same list, [Body.at] gives after
    the call what it gave before it, whether [observe] returned or raised. *)
Theorem body_at_survives_observe (fuel fuel' : nat) (self body other : Body.t)
    (st : state) (jd : float) (l : positive) :
  Body.segments self = PyList l → Body.segments body = PyList l →
  Body.segments other = PyList l →
  (Body.at_ fuel' other jd (Body.observe fuel self (Body.ABody body) st).2).1
  = (Body.at_ fuel' other jd st).1.
Proof.
  intros Hself Hbody Hother. rewrite !Body_at_run.
  rewrite (observe_list_heap _ _ _ _ _ Hself), Hbody, Hother. simpl.
  rewrite lookup_insert_eq. simpl. rewrite segment_dict_twice.
  by destruct (full_chain fuel' _ _).
Qed.

Lemma body_at_survives_observe_witness :
  (Body.at_ 3 Example.earth 5
     (Body.observe 3 Example.barycenter (Body.ABody Example.emb) Example.store).2).1
  = (Body.at_ 3 Example.earth 5 Example.store).1.
Proof.
  apply (body_at_survives_observe 3 3 Example.barycenter Example.emb Example.earth
           Example.store 5 1); reflexivity.
Defined.

(** X24. For an observer that holds its ephemeris' collection, [observe]
    given a name and [observe] given the [Body] built from the decoded name
    have the same outcome: the same [Solution], or the same exception. *)
Theorem observe_by_name_or_by_body (fuel : nat) (self : Body.t) (name : string)
    (st : state) :
  Body.segments self = eph_segments (Body.ephemeris self) →
  (Body.observe fuel self (Body.AName name) st).1
  = (Body.observe fuel self
       (Body.ABody (Body.new (Body.ephemeris self)
                      (decode (Body.ephemeris self) name))) st).1.
Proof.
  intros Hsegs. rewrite !observe_unfold.
  set (body := Body.new _ _).
  destruct (observe_operands_same self body st) as (segs & st1 & Hop & Hitems);
    [by rewrite Hsegs|].
  erewrite (bind_Ok (observe_operands self (Body.ABody body))) by exact Hop.
  erewrite bind_Ok by reflexivity.
  apply observe_chains_registry. by rewrite Hitems, segment_dict_twice.
Qed.

Lemma observe_by_name_or_by_body_witness :
  (Body.observe 3 Example2.here (Body.AName "there") Example2.store).1
  = (Body.observe 3 Example2.here
       (Body.ABody (Body.new (Body.ephemeris Example2.here)
                      (decode (Body.ephemeris Example2.here) "there")))
       Example2.store).1.
Proof. apply observe_by_name_or_by_body. reflexivity. Defined.

(** X25. After [observe] given a [Body], an observer whose segments are a
    list holds the merged registry: the registry of its list is that of the
    other body's segments completed by that of the list as it was, so that on
    a shared target the other body's segment has replaced the observer's for
    every later query on this list. *)
Theorem observe_merges_registry (fuel : nat) (self body : Body.t) (st : state)
    (l : positive) :
  Body.segments self = PyList l →
  segment_dict (items_of (heap (Body.observe fuel self (Body.ABody body) st).2)
                  (PyList l))
  = segment_dict (items_of (heap st) (Body.segments body))
    ∪ segment_dict (items_of (heap st) (PyList l)).
Proof.
  intros Hl. rewrite (observe_list_heap _ _ _ _ _ Hl). simpl.
  rewrite lookup_insert_eq. simpl. apply segment_dict_app.
Qed.

Lemma observe_merges_registry_witness :
  segment_dict
    (items_of (heap (Body.observe 3 Example.earth (Body.ABody Example2.adrift)
                       Example.store).2) (PyList 1))
  = segment_dict (items_of (heap Example.store) (Body.segments Example2.adrift))
    ∪ segment_dict (items_of (heap Example.store) (PyList 1)).
Proof. apply (observe_merges_registry 3 Example.earth Example2.adrift). reflexivity. Defined.
